(** * AttReplace: block substitution and selective training of a vision transformer

    A shallow embedding of [main.py]: the checkpoint loader [load_weight],
    the block replacer [replace_att2mixer], the depth truncator
    [cut_extra_layers], the gradient controller [set_requires_grad] and the
    orchestrator [main], followed by the properties of the design document
    checked against them.

    Python integers are [Z]; a dictionary is a [gmap]; an [nn.Sequential]
    is a list indexed the way Python indexes it (negative indices count
    from the end, anything else out of range raises [IndexError]); a raised
    exception is the left injection of a sum. *)

From Stdlib Require Import ZArith String Ascii Lia Bool.
From stdpp Require Import base list strings gmap pretty.

Local Open Scope string_scope.

(** ** Exceptions *)

Inductive PyError : Type :=
  | KeyError (key : string)
  | IndexError (idx : Z)
  | ValueError (msg : string)
  | TypeError (msg : string)
  | RuntimeError (msg : string).

Definition result (A : Type) : Type := (PyError + A)%type.

Definition raise {A : Type} (e : PyError) : result A := inl e.

Definition bind {A B : Type} (r : result A) (k : A → result B) : result B :=
  match r with
  | inl e => inl e
  | inr a => k a
  end.

Definition raises {A : Type} (r : result A) : Prop := ∃ e, r = inl e.

Declare Scope py_scope.
Delimit Scope py_scope with py.
Notation "'do' x <- e ; k" := (bind e (fun x => k))
  (at level 10, x name, e at level 100, k at level 200,
   format "'[v' 'do'  x  <-  e ; '/' k ']'") : py_scope.
Local Open Scope py_scope.

(** [d[k]] on a dictionary. *)
Definition getitem {V : Type} (d : gmap string V) (k : string) : result V :=
  match d !! k with
  | Some v => inr v
  | None => raise (KeyError k)
  end.

(** ** Strings *)

(** [sub in s] on Python strings. *)
Fixpoint contains (sub s : string) : bool :=
  String.prefix sub s ||
  match s with
  | EmptyString => false
  | String _ s' => contains sub s'
  end.

(** [s.startswith(p)]. *)
Definition startswith (s p : string) : bool := String.prefix p s.

(** ** Sequences indexed the Python way *)

Section PySeq.
Context {A : Type}.

(** The position an index [idx] denotes in a sequence of [size] items:
    [-size <= idx < size], then [idx %= size]. *)
Definition seq_index (size : nat) (idx : Z) : result nat :=
  if decide (- Z.of_nat size ≤ idx < Z.of_nat size)%Z
  then inr (Z.to_nat (idx `mod` Z.of_nat size))
  else raise (IndexError idx).

(** [l[idx] = x] on an [nn.Sequential]. *)
Definition seq_setitem (l : list A) (idx : Z) (x : A) : result (list A) :=
  do pos <- seq_index (length l) idx;
  inr (<[pos := x]> l).

(** The loop [for idx in indices: l[idx] = x]. *)
Fixpoint seq_setitems (l : list A) (indices : list Z) (x : A) : result (list A) :=
  match indices with
  | [] => inr l
  | idx :: rest =>
      do l' <- seq_setitem l idx x;
      seq_setitems l' rest x
  end.
End PySeq.

(** [range(a, b)]. *)
Definition py_range (a b : Z) : list Z := seqZ a (b - a).

(** [max(l)] of a list of integers; [ValueError] on the empty list. *)
Definition py_max (l : list Z) : result Z :=
  match l with
  | [] => raise (ValueError "max() arg is an empty sequence")
  | x :: l' => inr (foldl Z.max x l')
  end.

(** [int(n ** 0.5)]: a negative base gives a complex number, which [int]
    refuses; otherwise the integer part of the square root (exact while the
    operand stays below 2^52, far above any token count). *)
Definition int_sqrt (n : Z) : result Z :=
  if decide (n < 0)%Z
  then raise (TypeError "int() argument must be a real number, not 'complex'")
  else inr (Z.sqrt n).

(** A slice bound [i] on a dimension of [len] entries, clamped as Python
    clamps it. *)
Definition slice_bound (len : nat) (i : Z) : nat :=
  if decide (i < 0)%Z
  then Z.to_nat (Z.max 0 (Z.of_nat len + i))
  else Z.to_nat (Z.min i (Z.of_nat len)).

(** [chunks count size l]: the first [count] consecutive pieces of [size]
    items of [l]. *)
Fixpoint chunks {A : Type} (count size : nat) (l : list A) : list (list A) :=
  match count with
  | O => []
  | S count' => take size l :: chunks count' size (drop size l)
  end.

(** ** Tensors

    A tensor is its shape and its entries in row-major order.  The entries
    themselves ([scalar]: a floating-point number in the program) are never
    inspected by [main.py]; only the framework's resampling kernel computes
    with them. *)

Section Definitions.
Context {scalar : Type}.

Record Tensor : Type := mkTensor { shape : list nat; data : list scalar }.

(** Number of entries of a tensor of shape [sh]. *)
Definition numel (sh : list nat) : nat := foldr Nat.mul 1%nat sh.

Definition wf_tensor (t : Tensor) : Prop := length (data t) = numel (shape t).

(** [t.shape[-1]] and [t.shape[-2]]. *)
Definition shape_last (t : Tensor) : result nat :=
  match reverse (shape t) with
  | e :: _ => inr e
  | [] => raise (IndexError (-1))
  end.

Definition shape_last2 (t : Tensor) : result nat :=
  match reverse (shape t) with
  | _ :: n :: _ => inr n
  | _ => raise (IndexError (-2))
  end.

(** [t[:, lo:hi]] for bounds already clamped to the second dimension. *)
Definition slice_dim1 (t : Tensor) (lo hi : nat) : result Tensor :=
  match shape t with
  | d0 :: d1 :: rest =>
      let inner := numel rest in
      let width := (hi - lo)%nat in
      inr (mkTensor (d0 :: width :: rest)
             (concat (map (λ b, take (width * inner) (drop (lo * inner) b))
                          (chunks d0 (d1 * inner) (data t)))))
  | _ => raise (IndexError 1)
  end.

(** [t[:, :n]]. *)
Definition take_dim1 (t : Tensor) (n : Z) : result Tensor :=
  match shape t with
  | _ :: d1 :: _ => slice_dim1 t 0 (slice_bound d1 n)
  | _ => raise (IndexError 1)
  end.

(** [t[:, n:]]. *)
Definition drop_dim1 (t : Tensor) (n : Z) : result Tensor :=
  match shape t with
  | _ :: d1 :: _ => slice_dim1 t (slice_bound d1 n) d1
  | _ => raise (IndexError 1)
  end.

(** [t.reshape(-1, s1, s2, s3)]: the entries keep their order, the
    leading dimension is inferred; refused when it cannot be. *)
Definition reshape_infer (t : Tensor) (s1 s2 s3 : nat) : result Tensor :=
  let total := numel (shape t) in
  let known := (s1 * s2 * s3)%nat in
  if decide (known = 0%nat)
  then raise (RuntimeError "cannot infer the unspecified dimension")
  else if decide (total `mod` known = 0)%nat
  then inr (mkTensor [(total `div` known)%nat; s1; s2; s3] (data t))
  else raise (RuntimeError "shape is invalid for input size").

(** The entries [src 0, ..., src (n-1)] of [l], in that order. *)
Definition gather (n : nat) (src : nat → nat) (l : list scalar) : list scalar :=
  match l with
  | [] => []
  | d :: _ => map (λ k, nth (src k) l d) (seq 0 n)
  end.

(** [t.permute(0, 3, 1, 2)]: (B, H, W, C) becomes (B, C, H, W).  The two
    spatial axes keep their order, so a pixel is addressed by its offset
    [p] in the H*W grid: entry (b, c, p) comes from entry (b, p, c). *)
Definition permute_0312 (t : Tensor) : result Tensor :=
  match shape t with
  | [b; h; w; c] =>
      let hw := (h * w)%nat in
      inr (mkTensor [b; c; h; w]
             (gather (b * (c * hw))
                (λ k, let bi := (k `div` (c * hw))%nat in
                      let r := (k `mod` (c * hw))%nat in
                      let ci := (r `div` hw)%nat in
                      let p := (r `mod` hw)%nat in
                      (bi * (hw * c) + p * c + ci)%nat)
                (data t)))
  | _ => raise (RuntimeError "permute: number of dims does not match")
  end.

(** [t.permute(0, 2, 3, 1)]: (B, C, H, W) becomes (B, H, W, C): entry
    (b, p, c) comes from entry (b, c, p). *)
Definition permute_0231 (t : Tensor) : result Tensor :=
  match shape t with
  | [b; c; h; w] =>
      let hw := (h * w)%nat in
      inr (mkTensor [b; h; w; c]
             (gather (b * (hw * c))
                (λ k, let bi := (k `div` (hw * c))%nat in
                      let r := (k `mod` (hw * c))%nat in
                      let p := (r `div` c)%nat in
                      let ci := (r `mod` c)%nat in
                      (bi * (c * hw) + ci * hw + p)%nat)
                (data t)))
  | _ => raise (RuntimeError "permute: number of dims does not match")
  end.

(** [t.flatten(1, 2)]. *)
Definition flatten_1_2 (t : Tensor) : result Tensor :=
  match shape t with
  | d0 :: d1 :: d2 :: rest => inr (mkTensor (d0 :: (d1 * d2)%nat :: rest) (data t))
  | _ => raise (IndexError 2)
  end.

(** [torch.cat((a, b), dim=1)]. *)
Definition cat_dim1 (a b : Tensor) : result Tensor :=
  match shape a, shape b with
  | a0 :: a1 :: arest, b0 :: b1 :: brest =>
      if decide (a0 = b0 ∧ arest = brest)
      then
        let inner := numel arest in
        inr (mkTensor (a0 :: (a1 + b1)%nat :: arest)
               (concat (zip_with app (chunks a0 (a1 * inner) (data a))
                                     (chunks b0 (b1 * inner) (data b)))))
      else raise (RuntimeError "Sizes of tensors must match except in dimension 1")
  | _, _ => raise (IndexError 1)
  end.


(** ** Modules and their parameters *)

(** An [nn.Parameter]: its tensor and its gradient-tracking flag. *)
Record Param : Type := mkParam { value : Tensor; requires_grad : bool }.

(** The parameters a module owns, by local name, in registration order. *)
Local Abbreviation Params := (list (string * Param)).

(** Modelled from the spec: the block classes [MixerBlock] and [EmptyBlock]
    are imported from [models], which is not part of the sources.  A
    replacement block is built from the four hyperparameters (sequence
    length, token hidden width, channel width, channel hidden width) and
    owns the parameters its constructor creates; an identity block is a
    pass-through without parameters.  [NativeBlock] is a block of the
    architecture the model factory built. *)
Inductive Block : Type :=
  | NativeBlock (ps : Params)
  | MixerBlock (num_patches token_hid_dim channels_dim channels_hid_dim : Z)
               (ps : Params)
  | EmptyBlock.

(** A layer outside the block stack, or [nn.Identity()]. *)
Inductive Layer : Type :=
  | NativeLayer (ps : Params)
  | Identity.

(** The vision transformer as [main.py] sees it.  [stem] holds, under
    their full names, the parameters that live outside the attributes the
    program touches (class and distillation tokens, the patch projection,
    a distillation head). *)
Record Model : Type := mkModel {
  pos_embed : Param;
  patch_embed_num_patches : Z;
  stem : Params;
  blocks : list Block;
  norm : Layer;
  fc_norm : Layer;
  head_drop : Layer;
  head : Layer
}.

Definition set_blocks (m : Model) (bs : list Block) : Model :=
  mkModel (pos_embed m) (patch_embed_num_patches m) (stem m) bs
          (norm m) (fc_norm m) (head_drop m) (head m).

Definition block_parameters (b : Block) : Params :=
  match b with
  | NativeBlock ps => ps
  | MixerBlock _ _ _ _ ps => ps
  | EmptyBlock => []
  end.

Definition layer_parameters (l : Layer) : Params :=
  match l with
  | NativeLayer ps => ps
  | Identity => []
  end.

Definition prefixed (pre : string) (ps : Params) : Params :=
  map (λ np, (pre +:+ np.1, np.2)) ps.

(** The name prefix of the parameters of the block at position [i]. *)
Definition block_prefix (i : nat) : string :=
  "blocks." +:+ pretty (Z.of_nat i) +:+ ".".

(** [model.named_parameters()]. *)
Definition named_parameters (m : Model) : Params :=
  ("pos_embed", pos_embed m) :: stem m
  ++ concat (imap (λ i b, prefixed (block_prefix i) (block_parameters b)) (blocks m))
  ++ prefixed "norm." (layer_parameters (norm m))
  ++ prefixed "fc_norm." (layer_parameters (fc_norm m))
  ++ prefixed "head_drop." (layer_parameters (head_drop m))
  ++ prefixed "head." (layer_parameters (head m)).

(** In-place update of every parameter, each seen under its full name. *)
Definition map_params (f : string → Param → Param) (pre : string) (ps : Params) : Params :=
  map (λ np, (np.1, f (pre +:+ np.1) np.2)) ps.

Definition map_block (f : string → Param → Param) (pre : string) (b : Block) : Block :=
  match b with
  | NativeBlock ps => NativeBlock (map_params f pre ps)
  | MixerBlock np thd cd chd ps => MixerBlock np thd cd chd (map_params f pre ps)
  | EmptyBlock => EmptyBlock
  end.

Definition map_layer (f : string → Param → Param) (pre : string) (l : Layer) : Layer :=
  match l with
  | NativeLayer ps => NativeLayer (map_params f pre ps)
  | Identity => Identity
  end.

Definition map_model (f : string → Param → Param) (m : Model) : Model :=
  mkModel (f "pos_embed" (pos_embed m))
          (patch_embed_num_patches m)
          (map_params f "" (stem m))
          (imap (λ i b, map_block f (block_prefix i) b) (blocks m))
          (map_layer f "norm." (norm m))
          (map_layer f "fc_norm." (fc_norm m))
          (map_layer f "head_drop." (head_drop m))
          (map_layer f "head." (head m)).

(** [model.state_dict()]. *)
Definition state_dict (m : Model) : gmap string Tensor :=
  list_to_map (map (λ np, (np.1, value np.2)) (named_parameters m)).

(** [model.load_state_dict(d, strict=False)], the framework's contract:
    an entry whose shape differs from the parameter of its name is a
    [RuntimeError] even when not strict; otherwise every parameter that has
    an entry takes its tensor and keeps its flag, and missing or unexpected
    keys are ignored. *)
Definition size_mismatch (d : gmap string Tensor) (np : string * Param) : bool :=
  match d !! np.1 with
  | Some t => bool_decide (shape t ≠ shape (value np.2))
  | None => false
  end.

Definition load_state_dict (m : Model) (d : gmap string Tensor) : result Model :=
  if existsb (size_mismatch d) (named_parameters m)
  then raise (RuntimeError "size mismatch")
  else inr (map_model (λ name p,
                         match d !! name with
                         | Some t => mkParam t (requires_grad p)
                         | None => p
                         end) m).

(** ** Command-line arguments (the fields the control flow reads) *)

Record Args : Type := mkArgs {
  d_model : string;
  input_size : Z;
  d_weight : string;
  replace : option (list Z);
  eval : bool;
  eval_model : string;
  train : bool;
  nb_classes : Z
}.

Definition set_nb_classes (args : Args) (n : Z) : Args :=
  mkArgs (d_model args) (input_size args) (d_weight args) (replace args)
         (eval args) (eval_model args) (train args) n.

(** ** The collaborators

    What [main.py] imports and calls but does not define: the framework
    (checkpoint readers, the bicubic resampling kernel, the model factory),
    the dataset builder, the training loop, and from [models] the parameter
    table and the replacement block's constructor. *)
Class Collaborators : Type := {
  (** [torch.hub.load_state_dict_from_url(w, map_location="cpu", check_hash=True)] *)
  load_state_dict_from_url : string → result (gmap string (gmap string Tensor));
  (** [torch.load(w, map_location="cpu")] *)
  torch_load : string → result (gmap string (gmap string Tensor));
  (** [torch.nn.functional.interpolate(t, size=(h, w), mode='bicubic', align_corners=False)] *)
  interpolate : Tensor → nat → nat → result Tensor;
  (** [param_dict] *)
  param_dict : gmap string (gmap string Z);
  (** [MixerBlock(np, thd, cd, chd)] followed by [.to("cuda")]: the
      parameters of the new block, or the exception either step raises. *)
  mixer_block_init : Z → Z → Z → Z → result Params;
  (** [build_dataset(is_train, args)]: the class count (the dataset itself
      is only handed on to the loaders). *)
  build_dataset : bool → Args → result Z;
  (** [create_model(name, num_classes=..., img_size=...)] *)
  create_model : string → Z → Z → result Model;
  (** [train_model(args, student, teacher, ..., n_parameters)] *)
  train_model : Args → Model → Model → Z → result unit
}.

Context {collab : Collaborators}.

(** ** Checkpoint loader *)

Definition head_keys : list string :=
  ["head.weight"; "head.bias"; "head_dist.weight"; "head_dist.bias"].

(** The loop over the head keys: a key of the checkpoint whose shape
    differs from the model's parameter of that name is deleted.  The
    model's state dict is indexed as soon as the checkpoint has the key. *)
Fixpoint drop_mismatched_heads (state : gmap string Tensor)
    (checkpoint_model : gmap string Tensor) (keys : list string)
    : result (gmap string Tensor) :=
  match keys with
  | [] => inr checkpoint_model
  | k :: keys' =>
      match checkpoint_model !! k with
      | Some t =>
          do s <- getitem state k;
          if decide (shape t ≠ shape s)
          then drop_mismatched_heads state (delete k checkpoint_model) keys'
          else drop_mismatched_heads state checkpoint_model keys'
      | None => drop_mismatched_heads state checkpoint_model keys'
      end
  end.

(** "interpolate position embedding": the new positional embedding built
    from the checkpoint's. *)
Definition interpolate_pos_embed (model : Model)
    (checkpoint_model : gmap string Tensor) : result Tensor :=
  do pos_embed_checkpoint <- getitem checkpoint_model "pos_embed";
  do embedding_size <- shape_last pos_embed_checkpoint;
  let num_patches := patch_embed_num_patches model in
  do model_tokens <- shape_last2 (value (pos_embed model));
  let num_extra_tokens := (Z.of_nat model_tokens - num_patches)%Z in
  do checkpoint_tokens <- shape_last2 pos_embed_checkpoint;
  do orig_size <- int_sqrt (Z.of_nat checkpoint_tokens - num_extra_tokens);
  do new_size <- int_sqrt num_patches;
  do extra_tokens <- take_dim1 pos_embed_checkpoint num_extra_tokens;
  do pos_tokens <- drop_dim1 pos_embed_checkpoint num_extra_tokens;
  do pos_tokens <- reshape_infer pos_tokens (Z.to_nat orig_size) (Z.to_nat orig_size)
                                 embedding_size;
  do pos_tokens <- permute_0312 pos_tokens;
  do pos_tokens <- interpolate pos_tokens (Z.to_nat new_size) (Z.to_nat new_size);
  do pos_tokens <- permute_0231 pos_tokens;
  do pos_tokens <- flatten_1_2 pos_tokens;
  cat_dim1 extra_tokens pos_tokens.

(** The checkpoint dictionary as it is handed to [load_state_dict]. *)
Definition prepare_checkpoint (model : Model)
    (checkpoint_model : gmap string Tensor) : result (gmap string Tensor) :=
  do checkpoint_model <- drop_mismatched_heads (state_dict model) checkpoint_model head_keys;
  do new_pos_embed <- interpolate_pos_embed model checkpoint_model;
  inr (<["pos_embed" := new_pos_embed]> checkpoint_model).

Definition load_weight (model : Model) (weight : string) : result Model :=
  do checkpoint <- (if startswith weight "https"
                    then load_state_dict_from_url weight
                    else torch_load weight);
  do checkpoint_model <- getitem checkpoint "model";
  do checkpoint_model <- prepare_checkpoint model checkpoint_model;
  load_state_dict model checkpoint_model.

(** ** Block replacer *)

(** [param_dict[model_name][key]]. *)
Definition param_dict_entry (model_name key : string) : result Z :=
  do entry <- getitem param_dict model_name;
  getitem entry key.

Fixpoint replace_att2mixer (model : Model) (repl_blocks : list Z)
    (model_name : string) : result Model :=
  match repl_blocks with
  | [] => inr model
  | blk_index :: rest =>
      do np <- param_dict_entry model_name "num_patches";
      do thd <- param_dict_entry model_name "token_hid_dim";
      do cd <- param_dict_entry model_name "channels_dim";
      do chd <- param_dict_entry model_name "channels_hid_dim";
      do ps <- mixer_block_init np thd cd chd;
      let mlp_block := MixerBlock np thd cd chd ps in
      do bs <- seq_setitem (blocks model) blk_index mlp_block;
      replace_att2mixer (set_blocks model bs) rest model_name
  end.

(** ** Depth truncator *)

Definition cut_extra_layers (model : Model) (max_index depth : Z) : result Model :=
  do bs <- seq_setitems (blocks model) (py_range (max_index + 1) depth) EmptyBlock;
  inr (mkModel (pos_embed model) (patch_embed_num_patches model) (stem model) bs
               Identity Identity Identity Identity).

(** The default of the parameter [depth]. *)
Definition default_depth : Z := 12.

(** ** Selective gradient controller *)

Definition target_names (targets : list Z) : list string :=
  map (λ target, "blocks." +:+ pretty target) targets.

(** The flag [set_requires_grad] writes into the parameter called [name]. *)
Definition grad_flag (targets : list Z) (freeze : bool) (name : string) : bool :=
  if existsb (λ target, contains target name) (target_names targets)
  then negb freeze
  else freeze.

Definition set_requires_grad (model : Model) (targets : list Z) (freeze : bool) : Model :=
  map_model (λ name param, mkParam (value param) (grad_flag targets freeze name)) model.

(** The default of the parameter [freeze]. *)
Definition default_freeze : bool := true.

(** ** Orchestrator

    The calls that reach outside the program or build a model are
    recorded, in order, next to the outcome. *)

Inductive Event : Type :=
  | BuildDataset (is_train : bool)
  | CreateModel (name : string)
  | DeepCopy
  | ReplaceBlocks (repl_blocks : option (list Z))
  | LoadWeight (weight : string)
  | ToDevice (model : Model)
  | MakeOutputDir
  | TrainModel (student teacher : Model) (n_parameters : Z).

Definition IO (A : Type) : Type := (list Event * result A)%type.

Definition io_ret {A : Type} (a : A) : IO A := ([], inr a).

Definition io_bind {A B : Type} (m : IO A) (k : A → IO B) : IO B :=
  match m.2 with
  | inl e => (m.1, inl e)
  | inr a => ((m.1 ++ (k a).1)%list, (k a).2)
  end.

(** A recorded call: the event is there whether or not the call raises. *)
Definition call {A : Type} (ev : Event) (r : result A) : IO A := ([ev], r).

(** A step without recorded effect. *)
Definition pure_step {A : Type} (r : result A) : IO A := ([], r).

Notation "'run' x <- e ; k" := (io_bind e (fun x => k))
  (at level 10, x name, e at level 100, k at level 200,
   format "'[v' 'run'  x  <-  e ; '/' k ']'") : py_scope.

(** [sum(p.numel() for p in model.parameters() if p.requires_grad)]. *)
Definition trainable_count (m : Model) : Z :=
  foldr (λ np acc, if requires_grad np.2
                   then (Z.of_nat (numel (shape (value np.2))) + acc)%Z
                   else acc)
        0%Z (named_parameters m).

(** [for blk_index in args.replace] when [--replace] was not given. *)
Definition iterate_replace (repl_blocks : option (list Z)) : result (list Z) :=
  match repl_blocks with
  | Some l => inr l
  | None => raise (TypeError "'NoneType' object is not iterable")
  end.

Definition mode_error : PyError :=
  ValueError "Please specify running mode (eval/train).".

(** [main(args)].  Seeding, printing, the samplers and loaders, and the
    optimizer, scaler, scheduler and loss handed to the training loop do
    not touch the two models and are left out; so is the learning-rate
    scaling, which is floating-point arithmetic on [args.lr]. *)
Definition main (args : Args) : IO unit :=
  run classes <- call (BuildDataset true) (build_dataset true args);
  let args := set_nb_classes args classes in
  run _ <- call (BuildDataset false) (build_dataset false args);
  run model_deit <- call (CreateModel (d_model args))
                         (create_model (d_model args) (nb_classes args) (input_size args));
  run model_ori <- call DeepCopy (inr model_deit);
  run model_repl <- call (ReplaceBlocks (replace args))
                         (do repl_blocks <- iterate_replace (replace args);
                          replace_att2mixer model_deit repl_blocks (d_model args));
  if eval args && negb (train args) then
    run model <- call (LoadWeight (eval_model args)) (load_weight model_repl (eval_model args));
    call (ToDevice model) (inr tt)
  else if train args && negb (eval args) then
    run model <- call (LoadWeight (d_weight args)) (load_weight model_repl (d_weight args));
    run model_ori <- call (LoadWeight (d_weight args)) (load_weight model_ori (d_weight args));
    run partial_model <- pure_step (do repl_blocks <- iterate_replace (replace args);
                                    do max_index <- py_max repl_blocks;
                                    cut_extra_layers model max_index default_depth);
    run partial_model_ori <- pure_step (do repl_blocks <- iterate_replace (replace args);
                                        do max_index <- py_max repl_blocks;
                                        cut_extra_layers model_ori max_index default_depth);
    run _ <- call (ToDevice partial_model) (inr tt);
    run _ <- call (ToDevice partial_model_ori) (inr tt);
    run repl_blocks <- pure_step (iterate_replace (replace args));
    let partial_model := set_requires_grad partial_model repl_blocks default_freeze in
    let partial_model_ori := set_requires_grad partial_model_ori [] default_freeze in
    run _ <- call (ToDevice partial_model) (inr tt);
    run _ <- call (ToDevice partial_model_ori) (inr tt);
    let n_parameters := trainable_count partial_model in
    run _ <- call MakeOutputDir (inr tt);
    call (TrainModel partial_model partial_model_ori n_parameters)
         (train_model args partial_model partial_model_ori n_parameters)
  else pure_step (raise mode_error).

End Definitions.

Arguments Tensor : clear implicits.
Arguments Param : clear implicits.
Arguments Block : clear implicits.
Arguments Layer : clear implicits.
Arguments Model : clear implicits.
Arguments Event : clear implicits.
Arguments Collaborators : clear implicits.

(** ** A small concrete instance

    Entries are integers standing for the bit patterns of the floating
    point numbers; the architecture ["vit_small_demo"] has a 2x2 patch
    grid, one class token and embedding width 2, ["vit_deep_demo"] is the
    same with fourteen blocks. *)

Definition filled (sh : list nat) (start : Z) : Tensor Z :=
  mkTensor sh (seqZ start (Z.of_nat (numel sh))).

Definition fresh (sh : list nat) (start : Z) : Param Z :=
  mkParam (filled sh start) true.

Definition demo_block (k : Z) : Block Z :=
  NativeBlock [("attn.qkv.weight", fresh [6; 2] k); ("mlp.fc1.weight", fresh [4; 2] (k + 50))].

Definition demo_model (depth : nat) : Model Z :=
  mkModel (fresh [1; 5; 2] 100) 4
          [("cls_token", fresh [1; 1; 2] 0); ("patch_embed.proj.weight", fresh [2; 3; 1; 1] 10)]
          (map (λ i, demo_block (1000 * Z.of_nat i)) (seq 0 depth))
          (NativeLayer [("weight", fresh [2] 20); ("bias", fresh [2] 30)])
          Identity
          (NativeLayer [])
          (NativeLayer [("weight", fresh [3; 2] 40); ("bias", fresh [3] 60)]).

Definition demo_entry : gmap string Z :=
  {[ "num_patches" := 4%Z; "token_hid_dim" := 3%Z;
     "channels_dim" := 2%Z; "channels_hid_dim" := 5%Z ]}.

Definition demo_table : gmap string (gmap string Z) :=
  {[ "vit_small_demo" := demo_entry; "vit_deep_demo" := demo_entry ]}.

Definition demo_mixer_params (np thd cd chd : Z) : list (string * Param Z) :=
  [("token_mixing.fc1.weight", fresh [Z.to_nat thd; Z.to_nat np] 7);
   ("channel_mixing.fc1.weight", fresh [Z.to_nat chd; Z.to_nat cd] 9)].

Definition demo_mixer_init (np thd cd chd : Z) : result (list (string * Param Z)) :=
  inr (demo_mixer_params np thd cd chd).

(** The parameters of a checkpoint saved from the same architecture (2x2
    grid, one class token), with a head for 7 classes instead of 3. *)
Definition demo_state : gmap string (Tensor Z) :=
  {[ "pos_embed" := filled [1; 5; 2] 500;
     "cls_token" := filled [1; 1; 2] 600;
     "head.weight" := filled [7; 2] 700;
     "head.bias" := filled [7] 800 ]}.

Definition demo_checkpoint : gmap string (gmap string (Tensor Z)) :=
  {[ "model" := demo_state ]}.

(** The parameters of a checkpoint with a 3x3 grid. *)
Definition demo_state_3x3 : gmap string (Tensor Z) :=
  {[ "pos_embed" := filled [1; 10; 2] 500 ]}.

Definition demo_checkpoint_3x3 : gmap string (gmap string (Tensor Z)) :=
  {[ "model" := demo_state_3x3 ]}.

(** The parameters of a checkpoint of a distilled model: it carries a
    distillation head. *)
Definition demo_state_distilled : gmap string (Tensor Z) :=
  {[ "pos_embed" := filled [1; 5; 2] 500;
     "head_dist.weight" := filled [3; 2] 900 ]}.

Definition demo_checkpoint_distilled : gmap string (gmap string (Tensor Z)) :=
  {[ "model" := demo_state_distilled ]}.

Definition demo_fetch (weight : string) : result (gmap string (gmap string (Tensor Z))) :=
  if decide (weight = "demo.pth") then inr demo_checkpoint
  else if decide (weight = "https://demo/deit.pth") then inr demo_checkpoint
  else if decide (weight = "demo_3x3.pth") then inr demo_checkpoint_3x3
  else if decide (weight = "demo_distilled.pth") then inr demo_checkpoint_distilled
  else raise (RuntimeError "no such checkpoint").

(** A resampling kernel for the instance: a copy when the sizes agree,
    the nearest source pixel otherwise. *)
Definition demo_interpolate (t : Tensor Z) (h w : nat) : result (Tensor Z) :=
  match shape t with
  | [b; c; h0; w0] =>
      if decide (h0 = h ∧ w0 = w) then inr t
      else if decide (h = 0 ∨ w = 0 ∨ data t = [])%nat
      then raise (RuntimeError "Input and output sizes should be greater than 0")
      else inr (mkTensor [b; c; h; w]
                  (gather (b * (c * (h * w)))
                     (λ k, let img := (k `div` (h * w))%nat in
                           let r := (k `mod` (h * w))%nat in
                           let i := (r `div` w)%nat in
                           let j := (r `mod` w)%nat in
                           (img * (h0 * w0) + (i * h0 `div` h) * w0 + (j * w0 `div` w))%nat)
                     (data t)))
  | _ => raise (RuntimeError "expected a 4D tensor")
  end.

Definition demo_create_model (name : string) (num_classes img_size : Z) : result (Model Z) :=
  if decide (name = "vit_small_demo") then inr (demo_model 3)
  else if decide (name = "vit_deep_demo") then inr (demo_model 14)
  else raise (RuntimeError "Unknown model").

Definition demo : Collaborators Z := {|
  load_state_dict_from_url := demo_fetch;
  torch_load := demo_fetch;
  interpolate := demo_interpolate;
  param_dict := demo_table;
  mixer_block_init := demo_mixer_init;
  build_dataset := λ _ _, inr 3%Z;
  create_model := demo_create_model;
  train_model := λ _ _ _ _, inr tt
|}.

Definition demo_args (name : string) (repl : option (list Z)) (is_train is_eval : bool) : Args :=
  mkArgs name 224 "demo.pth" repl is_eval "demo.pth" is_train 100.

(** The gradient-tracking flag of every named parameter. *)
Definition grad_flags (m : Model Z) : list (string * bool) :=
  map (λ np, (np.1, requires_grad np.2)) (named_parameters m).

(** The models and the count handed to the training loop in a trace. *)
Definition training_call (trace : list (Event Z)) : option (Model Z * Model Z * Z) :=
  foldr (λ ev acc, match ev with
                   | TrainModel student teacher n => Some (student, teacher, n)
                   | _ => acc
                   end) None trace.

Definition is_empty_block (b : option (Block Z)) : bool :=
  match b with Some EmptyBlock => true | _ => false end.


(** A training run on the fourteen-block architecture, block 1 replaced. *)
Definition demo_train_args : Args := demo_args "vit_deep_demo" (Some [1%Z]) true false.

Definition demo_student : Model Z :=
  match training_call (main (collab := demo) demo_train_args).1 with
  | Some (student, _, _) => student
  | None => demo_model 0
  end.

Definition demo_teacher : Model Z :=
  match training_call (main (collab := demo) demo_train_args).1 with
  | Some (_, teacher, _) => teacher
  | None => demo_model 0
  end.

Definition demo_n_parameters : Z :=
  match training_call (main (collab := demo) demo_train_args).1 with
  | Some (_, _, n) => n
  | None => 0%Z
  end.

(** The same run with the replacement index counted from the end. *)
Definition demo_negative_args : Args := demo_args "vit_deep_demo" (Some [(-2)%Z]) true false.

Definition demo_negative_student : Model Z :=
  match training_call (main (collab := demo) demo_negative_args).1 with
  | Some (student, _, _) => student
  | None => demo_model 0
  end.

(** ** The script entry point

    The [__main__] block parses the command line and then overwrites four
    of the parsed fields before it calls [main]. *)

Definition deit_model : string := "deit_tiny_patch16_224".

Definition deit_weight : string :=
  "https://dl.fbaipublicfiles.com/deit/deit_tiny_patch16_224-a1311bcf.pth".

Definition repl_index : list Z := [1%Z].

(** [args.d_model = deit_model; args.d_weight = deit_weight;
    args.replace = repl_index; args.train = True]. *)
Definition script_args (args : Args) : Args :=
  mkArgs deit_model (input_size args) deit_weight (Some repl_index)
         (eval args) (eval_model args) true (nb_classes args).

Definition script {scalar : Type} {collab : Collaborators scalar} (args : Args)
    : IO (scalar := scalar) unit :=
  main (script_args args).

(** Collaborators for the script: the factory knows the architecture the
    script names (twelve blocks here), the table has its entry and the
    checkpoint is served under the script's address. *)
Definition demo_deit_create_model (name : string) (num_classes img_size : Z)
    : result (Model Z) :=
  if decide (name = deit_model) then inr (demo_model 12)
  else raise (RuntimeError "Unknown model").

Definition demo_deit_fetch (weight : string)
    : result (gmap string (gmap string (Tensor Z))) :=
  if decide (weight = deit_weight) then inr demo_checkpoint
  else raise (RuntimeError "no such checkpoint").

Definition demo_deit : Collaborators Z := {|
  load_state_dict_from_url := demo_deit_fetch;
  torch_load := λ _, raise (RuntimeError "no such file");
  interpolate := demo_interpolate;
  param_dict := {[ deit_model := demo_entry ]};
  mixer_block_init := demo_mixer_init;
  build_dataset := λ _ _, inr 3%Z;
  create_model := demo_deit_create_model;
  train_model := λ _ _ _ _, inr tt
|}.

(** What the command line gives when no option is passed. *)
Definition parsed_defaults : Args :=
  mkArgs "deit_tiny_patch16_224" 224 "" None false "" false 100.

(** Collaborators with defects: the table entry of the architecture
    lacks the two channel hyperparameters, and the checkpoint has no
    positional embedding. *)
Definition demo_incomplete_entry : gmap string Z :=
  {[ "num_patches" := 4%Z; "token_hid_dim" := 3%Z ]}.

Definition demo_state_headless : gmap string (Tensor Z) :=
  {[ "cls_token" := filled [1; 1; 2] 600 ]}.

Definition demo_incomplete : Collaborators Z := {|
  load_state_dict_from_url := λ _, inr {[ "model" := demo_state_headless ]};
  torch_load := λ _, inr {[ "model" := demo_state_headless ]};
  interpolate := demo_interpolate;
  param_dict := {[ "vit_small_demo" := demo_incomplete_entry ]};
  mixer_block_init := demo_mixer_init;
  build_dataset := λ _ _, inr 3%Z;
  create_model := demo_create_model;
  train_model := λ _ _ _ _, inr tt
|}.

(** A checkpoint whose positional embedding holds no token at all. *)
Definition demo_state_no_tokens : gmap string (Tensor Z) :=
  {[ "pos_embed" := filled [1; 0; 2] 500 ]}.

(** Runs on the three-block architecture. *)
Definition demo_eval_args : Args := demo_args "vit_small_demo" (Some [1%Z]) false true.




(** * Properties *)

Section Properties.
Context {scalar : Type} {collab : Collaborators scalar}.

Local Abbreviation Params := (list (string * Param scalar)).

(** ** The result monad *)

Lemma bind_inr {A B : Type} (r : result A) (k : A → result B) (b : B) :
  bind r k = inr b → ∃ a, r = inr a ∧ k a = inr b.
Proof. destruct r as [e|a]; simpl; [discriminate | eauto]. Qed.

Lemma raises_bind_l {A B : Type} (r : result A) (k : A → result B) :
  raises r → raises (bind r k).
Proof. intros [e ->]. by exists e. Qed.

Lemma not_raises_inr {A : Type} (a : A) : ¬ raises (inr a : result A).
Proof. intros [e He]. discriminate. Qed.

Lemma raises_or_ok {A : Type} (r : result A) : raises r ∨ ∃ a, r = inr a.
Proof. destruct r; [left; by eexists | right; by eexists]. Qed.

(** ** Parameter names under [map_model] *)

Lemma prefixed_map_params (f : string → Param scalar → Param scalar) pre (ps : Params) :
  prefixed pre (map_params f pre ps)
  = map (λ np, (np.1, f np.1 np.2)) (prefixed pre ps).
Proof.
  unfold prefixed, map_params. rewrite !map_map.
  apply map_ext. by intros [n p].
Qed.

Lemma prefixed_map_block f pre (b : Block scalar) :
  prefixed pre (block_parameters (map_block f pre b))
  = map (λ np, (np.1, f np.1 np.2)) (prefixed pre (block_parameters b)).
Proof. destruct b; simpl; auto using prefixed_map_params. Qed.

Lemma prefixed_map_layer f pre (l : Layer scalar) :
  prefixed pre (layer_parameters (map_layer f pre l))
  = map (λ np, (np.1, f np.1 np.2)) (prefixed pre (layer_parameters l)).
Proof. destruct l; simpl; auto using prefixed_map_params. Qed.

Lemma stem_map_params f (ps : Params) :
  map_params f "" ps = map (λ np, (np.1, f np.1 np.2)) ps.
Proof. unfold map_params. apply map_ext. by intros [n p]. Qed.

Lemma blocks_map_params f (pre : nat → string) (bs : list (Block scalar)) :
  concat (imap (λ i b, prefixed (pre i) (block_parameters b))
               (imap (λ i b, map_block f (pre i) b) bs))
  = map (λ np, (np.1, f np.1 np.2))
        (concat (imap (λ i b, prefixed (pre i) (block_parameters b)) bs)).
Proof.
  revert pre. induction bs as [|b bs IH]; intros pre; [done|].
  rewrite !imap_cons. simpl. rewrite map_app, prefixed_map_block. f_equal.
  apply (IH (pre ∘ S)).
Qed.

(** [named_parameters] after an in-place update: the same names, each
    parameter updated under its own name. *)
Lemma named_parameters_map_model f (m : Model scalar) :
  named_parameters (map_model f m)
  = map (λ np, (np.1, f np.1 np.2)) (named_parameters m).
Proof.
  unfold named_parameters, map_model. simpl.
  rewrite !map_app, blocks_map_params, !prefixed_map_layer, stem_map_params.
  reflexivity.
Qed.

(** ** Selective gradient controller *)

(** What the controller leaves in every parameter: the flag computed from
    the parameter's own name. *)
Lemma set_requires_grad_flag (m : Model scalar) targets freeze name p :
  (name, p) ∈ named_parameters (set_requires_grad m targets freeze) →
  requires_grad p = grad_flag targets freeze name.
Proof.
  unfold set_requires_grad. rewrite named_parameters_map_model.
  intros Hin. apply list_elem_of_fmap in Hin as [[n q] [Heq _]].
  by inversion Heq.
Qed.

Lemma set_requires_grad_names (m : Model scalar) targets freeze :
  (named_parameters (set_requires_grad m targets freeze)).*1 = (named_parameters m).*1.
Proof.
  unfold set_requires_grad. rewrite named_parameters_map_model.
  rewrite <- list_fmap_compose. apply list_fmap_ext. by intros i [n p].
Qed.

(** With [freeze] at its default the flag is on exactly when no target
    name occurs in the parameter's name. *)
Lemma grad_flag_default targets name :
  grad_flag targets true name = true
  ↔ ∀ i, i ∈ targets → contains ("blocks." +:+ pretty i) name = false.
Proof.
  unfold grad_flag, target_names.
  destruct (existsb _ _) eqn:Hex; simpl.
  - split; [discriminate|]. intros Hall.
    apply existsb_exists in Hex as [t [Hin Ht]].
    apply in_map_iff in Hin as [i [<- Hi]].
    rewrite Hall in Ht; [discriminate|]. by apply list_elem_of_In.
  - split; [|done]. intros _ i Hi.
    destruct (contains _ name) eqn:Hc; [|done].
    assert (existsb (λ target, contains target name)
              (map (λ target, "blocks." +:+ pretty target) targets) = true) as Hex'.
    { apply existsb_exists. eexists. split; [|exact Hc].
      apply in_map_iff. exists i. split; [done|]. by apply list_elem_of_In. }
    congruence.
Qed.

Lemma grad_flag_no_targets freeze name : grad_flag [] freeze name = freeze.
Proof. reflexivity. Qed.

(** The controller with [freeze] at its default: tracking ends up enabled
    on exactly the parameters whose names contain no target name. *)
Lemma set_requires_grad_default (m : Model scalar) targets name p :
  (name, p) ∈ named_parameters (set_requires_grad m targets true) →
  requires_grad p = true
  ↔ ∀ i, i ∈ targets → contains ("blocks." +:+ pretty i) name = false.
Proof.
  intros Hin. rewrite (set_requires_grad_flag _ _ _ _ _ Hin).
  apply grad_flag_default.
Qed.

(** Without targets and with [freeze] at its default every parameter ends
    up with tracking enabled. *)
Lemma set_requires_grad_no_targets (m : Model scalar) name p :
  (name, p) ∈ named_parameters (set_requires_grad m [] true) →
  requires_grad p = true.
Proof. intros Hin. by rewrite (set_requires_grad_flag _ _ _ _ _ Hin). Qed.

(** ** Python-indexed sequences *)

Lemma seq_index_ok (size : nat) (idx : Z) :
  (- Z.of_nat size ≤ idx < Z.of_nat size)%Z →
  seq_index size idx = inr (Z.to_nat (idx `mod` Z.of_nat size))
  ∧ (Z.to_nat (idx `mod` Z.of_nat size) < size)%nat.
Proof.
  intros Hr. unfold seq_index. rewrite decide_True by done. split; [done|].
  assert (0 ≤ idx `mod` Z.of_nat size < Z.of_nat size)%Z by (apply Z.mod_pos_bound; lia).
  lia.
Qed.


Lemma seq_index_raises (size : nat) (idx : Z) :
  ¬ (- Z.of_nat size ≤ idx < Z.of_nat size)%Z →
  seq_index size idx = inl (IndexError idx).
Proof. intros Hr. unfold seq_index. by rewrite decide_False. Qed.

Lemma seq_setitems_ok {A : Type} (indices : list Z) (x : A) (l : list A) :
  Forall (λ i, - Z.of_nat (length l) ≤ i < Z.of_nat (length l))%Z indices →
  ∃ l', seq_setitems l indices x = inr l'
    ∧ length l' = length l
    ∧ ∀ p : nat,
        l' !! p = if decide (Exists (λ i, Z.to_nat (i `mod` Z.of_nat (length l)) = p) indices)
                  then Some x else l !! p.
Proof.
  revert l. induction indices as [|i rest IH]; intros l Hall.
  - exists l. split; [done|]. split; [done|]. intros p.
    rewrite decide_False; [done|]. by intros ?%Exists_nil.
  - apply Forall_cons in Hall as [Hi Hrest].
    destruct (seq_index_ok (length l) i Hi) as [Hidx Hlt].
    set (pos := Z.to_nat (i `mod` Z.of_nat (length l))) in *.
    destruct (IH (<[pos := x]> l)) as (l' & Hrun & Hlen & Hlook).
    { by rewrite length_insert. }
    rewrite length_insert in Hlen, Hlook.
    exists l'. split; [|split; [done|]].
    + simpl. unfold seq_setitem. rewrite Hidx. simpl. exact Hrun.
    + intros p. rewrite Hlook.
      destruct (decide (Exists _ rest)) as [Hex|Hnex].
      * rewrite decide_True; [done|]. by apply Exists_cons_tl.
      * destruct (decide (pos = p)) as [<-|Hne].
        -- rewrite decide_True by (by apply Exists_cons_hd).
           by apply list_lookup_insert_eq.
        -- rewrite decide_False.
           ++ by apply list_lookup_insert_ne.
           ++ intros [?|?]%Exists_cons; [subst pos; lia | done].
Qed.

Lemma seq_setitems_raises {A : Type} (indices : list Z) (x : A) (l : list A) :
  Exists (λ i, ¬ (- Z.of_nat (length l) ≤ i < Z.of_nat (length l))%Z) indices →
  raises (seq_setitems l indices x).
Proof.
  revert l. induction indices as [|i rest IH]; intros l Hex.
  - by apply Exists_nil in Hex.
  - simpl. unfold seq_setitem.
    destruct (decide (- Z.of_nat (length l) ≤ i < Z.of_nat (length l))%Z) as [Hi|Hi].
    + destruct (seq_index_ok _ _ Hi) as [-> _]. simpl.
      apply IH. rewrite length_insert.
      apply Exists_cons in Hex as [?|?]; [done | done].
    + rewrite (seq_index_raises _ _ Hi). by eexists.
Qed.

(** ** Depth truncator *)

Lemma py_range_elem (a b i : Z) : i ∈ py_range a b ↔ (a ≤ i < b)%Z.
Proof. unfold py_range. rewrite elem_of_seqZ. lia. Qed.

Lemma py_range_empty (a b : Z) : (b ≤ a)%Z → py_range a b = [].
Proof. intros. unfold py_range. apply seqZ_nil. lia. Qed.

Lemma cut_extra_layers_inr (model model' : Model scalar) (max_index depth : Z) :
  cut_extra_layers model max_index depth = inr model' →
  ∃ bs, seq_setitems (blocks model) (py_range (max_index + 1) depth) EmptyBlock = inr bs
    ∧ model' = mkModel (pos_embed model) (patch_embed_num_patches model) (stem model) bs
                       Identity Identity Identity Identity.
Proof.
  unfold cut_extra_layers. intros (bs & Hbs & Heq)%bind_inr.
  exists bs. split; [done|]. by inversion Heq.
Qed.

(** A run that returns assigned only positions inside the sequence. *)
Lemma seq_setitems_inr_valid {A : Type} (indices : list Z) (x : A) (l l' : list A) :
  seq_setitems l indices x = inr l' →
  Forall (λ i, - Z.of_nat (length l) ≤ i < Z.of_nat (length l))%Z indices.
Proof.
  intros Hrun.
  destruct (decide (Forall (λ i, - Z.of_nat (length l) ≤ i < Z.of_nat (length l))%Z indices))
    as [?|Hn]; [done|].
  apply not_Forall_Exists in Hn; [|apply _].
  destruct (seq_setitems_raises indices x l Hn) as [e He]. congruence.
Qed.

(** The truncator leaves every position from [depth] on alone, provided
    the first index it assigns is not negative. *)
Lemma cut_extra_layers_beyond_depth (model model' : Model scalar) (max_index depth : Z) :
  cut_extra_layers model max_index depth = inr model' →
  (-1 ≤ max_index)%Z →
  ∀ p : nat, (depth ≤ Z.of_nat p)%Z → blocks model' !! p = blocks model !! p.
Proof.
  intros (bs & Hbs & ->)%cut_extra_layers_inr Hmax p Hp. simpl.
  pose proof (seq_setitems_inr_valid _ _ _ _ Hbs) as Hvalid.
  destruct (seq_setitems_ok _ EmptyBlock _ Hvalid) as (bs' & Hrun & _ & Hlook).
  rewrite Hbs in Hrun. inversion Hrun; subst bs'. rewrite Hlook.
  rewrite decide_False; [done|].
  intros Hex. apply Exists_exists in Hex as (i & Hi & Hpos).
  rewrite Forall_forall in Hvalid. specialize (Hvalid i Hi).
  apply py_range_elem in Hi.
  rewrite Z.mod_small in Hpos by lia. lia.
Qed.

(** The truncator returns when every index it assigns lies inside the
    block sequence, and then the blocks and layers are as follows. *)
Lemma cut_extra_layers_returns (model : Model scalar) (max_index depth : Z) :
  (max_index + 1 < depth →
   - Z.of_nat (length (blocks model)) ≤ max_index + 1
   ∧ depth ≤ Z.of_nat (length (blocks model)))%Z →
  ∃ model',
    cut_extra_layers model max_index depth = inr model'
    ∧ (∀ p : nat, (max_index < Z.of_nat p < depth)%Z →
                  blocks model' !! p = Some EmptyBlock)
    ∧ norm model' = Identity ∧ fc_norm model' = Identity
    ∧ head_drop model' = Identity ∧ head model' = Identity
    ∧ (max_index = depth - 1 → blocks model' = blocks model)%Z.
Proof.
  intros Hrange.
  assert (Forall (λ i, - Z.of_nat (length (blocks model)) ≤ i
                         < Z.of_nat (length (blocks model)))%Z
                 (py_range (max_index + 1) depth)) as Hvalid.
  { apply Forall_forall. intros i Hi%py_range_elem. lia. }
  destruct (seq_setitems_ok _ EmptyBlock _ Hvalid) as (bs & Hrun & Hlen & Hlook).
  eexists. unfold cut_extra_layers. rewrite Hrun. simpl.
  split; [reflexivity|]. simpl. split; [|repeat split].
  - intros p Hp. rewrite Hlook. rewrite decide_True; [done|].
    apply Exists_exists. exists (Z.of_nat p). split.
    + apply py_range_elem. lia.
    + rewrite Z.mod_small by lia. lia.
  - intros ->. rewrite py_range_empty in Hrun by lia.
    simpl in Hrun. by inversion Hrun.
Qed.

(** The truncator raises when an index it assigns lies outside the block
    sequence (the default depth 12 on a shorter model, for instance). *)
Lemma cut_extra_layers_raises (model : Model scalar) (max_index depth : Z) :
  (max_index + 1 < depth)%Z →
  (max_index + 1 < - Z.of_nat (length (blocks model))
   ∨ Z.of_nat (length (blocks model)) < depth)%Z →
  raises (cut_extra_layers model max_index depth).
Proof.
  intros Hlt Hout. unfold cut_extra_layers. apply raises_bind_l.
  apply seq_setitems_raises. apply Exists_exists.
  destruct Hout as [Hlow|Hhigh].
  - exists (max_index + 1)%Z. split; [apply py_range_elem; lia | lia].
  - exists (depth - 1)%Z. split; [apply py_range_elem; lia | lia].
Qed.

(** C3.  After the depth truncator has run with [max_index < depth], every
    block at a position strictly greater than [max_index] and strictly
    less than [depth] is an identity block, and the final normalization,
    the feature normalization, the head's dropout and the classification
    head are identity layers; when [max_index = depth - 1] no block is
    replaced and only those layers are nulled.  The truncator does return
    whenever the indices it assigns lie inside the block sequence, which
    is always so in the edge case. *)
Theorem cut_extra_layers_spec (model : Model scalar) (max_index depth : Z) :
  (max_index < depth)%Z →
  (∀ model',
     cut_extra_layers model max_index depth = inr model' →
     (∀ p : nat, (max_index < Z.of_nat p < depth)%Z →
                 blocks model' !! p = Some EmptyBlock)
     ∧ norm model' = Identity ∧ fc_norm model' = Identity
     ∧ head_drop model' = Identity ∧ head model' = Identity
     ∧ (max_index = depth - 1 → blocks model' = blocks model)%Z)
  ∧ ((max_index + 1 < depth →
      - Z.of_nat (length (blocks model)) ≤ max_index + 1
      ∧ depth ≤ Z.of_nat (length (blocks model)))%Z →
     ∃ model', cut_extra_layers model max_index depth = inr model')
  ∧ ((max_index = depth - 1)%Z →
     ∃ model', cut_extra_layers model max_index depth = inr model'
               ∧ blocks model' = blocks model).
Proof.
  intros Hlt. split; [|split].
  - intros model' Hrun.
    destruct (cut_extra_layers_returns model max_index depth)
      as (model'' & Hrun' & Hprops).
    + intros Hne.
      destruct (decide (max_index + 1 < - Z.of_nat (length (blocks model))
                        ∨ Z.of_nat (length (blocks model)) < depth)%Z) as [Hout|Hin];
        [|lia].
      destruct (cut_extra_layers_raises model max_index depth Hne Hout) as [e He].
      congruence.
    + assert (model'' = model') as -> by congruence. exact Hprops.
  - intros Hrange.
    destruct (cut_extra_layers_returns model max_index depth Hrange)
      as (model' & Hrun & _).
    by exists model'.
  - intros Hedge.
    destruct (cut_extra_layers_returns model max_index depth)
      as (model' & Hrun & _ & _ & _ & _ & _ & Hblocks); [lia|].
    exists model'. split; [done | by apply Hblocks].
Qed.

(** ** Block replacer *)

Lemma param_dict_entry_ok (model_name key : string) (entry : gmap string Z) (v : Z) :
  param_dict !! model_name = Some entry → entry !! key = Some v →
  param_dict_entry model_name key = inr v.
Proof. intros He Hv. unfold param_dict_entry, getitem. rewrite He. simpl. by rewrite Hv. Qed.

Lemma param_dict_entry_absent (model_name key : string) :
  param_dict !! model_name = None →
  param_dict_entry model_name key = inl (KeyError model_name).
Proof. intros He. unfold param_dict_entry, getitem. by rewrite He. Qed.

(** With a complete table entry and a constructor that succeeds, the
    replacer is the assignment loop over the block sequence. *)
Lemma replace_att2mixer_run (repl_blocks : list Z) (model : Model scalar)
    (model_name : string) (entry : gmap string Z) (np thd cd chd : Z) (ps : Params) :
  param_dict !! model_name = Some entry →
  entry !! "num_patches" = Some np →
  entry !! "token_hid_dim" = Some thd →
  entry !! "channels_dim" = Some cd →
  entry !! "channels_hid_dim" = Some chd →
  mixer_block_init np thd cd chd = inr ps →
  replace_att2mixer model repl_blocks model_name
  = bind (seq_setitems (blocks model) repl_blocks (MixerBlock np thd cd chd ps))
         (λ bs, inr (set_blocks model bs)).
Proof.
  intros He Hnp Hthd Hcd Hchd Hps.
  revert model. induction repl_blocks as [|i rest IH]; intros model.
  - simpl. by destruct model.
  - simpl.
    rewrite (param_dict_entry_ok _ _ _ _ He Hnp), (param_dict_entry_ok _ _ _ _ He Hthd),
            (param_dict_entry_ok _ _ _ _ He Hcd), (param_dict_entry_ok _ _ _ _ He Hchd).
    simpl. rewrite Hps. simpl.
    destruct (seq_setitem (blocks model) i _) as [e|bs]; simpl; [done|].
    by rewrite IH.
Qed.

(** C4.  Block replacement is positional: for an index list inside
    [0, depth) and a model name whose table entry holds the four
    hyperparameters, the replacer returns a model in which each block at a
    listed index is a replacement block built from exactly those four
    values, and every other block, the embeddings, the normalization layers
    and the head are the ones of the model it was given. *)
Theorem replace_att2mixer_positional (model : Model scalar) (repl_blocks : list Z)
    (model_name : string) (entry : gmap string Z) (np thd cd chd : Z) (ps : Params) :
  Forall (λ i, 0 ≤ i < Z.of_nat (length (blocks model)))%Z repl_blocks →
  param_dict !! model_name = Some entry →
  entry !! "num_patches" = Some np →
  entry !! "token_hid_dim" = Some thd →
  entry !! "channels_dim" = Some cd →
  entry !! "channels_hid_dim" = Some chd →
  mixer_block_init np thd cd chd = inr ps →
  ∃ model',
    replace_att2mixer model repl_blocks model_name = inr model'
    ∧ (∀ i, i ∈ repl_blocks →
            blocks model' !! Z.to_nat i = Some (MixerBlock np thd cd chd ps))
    ∧ (∀ p : nat, Z.of_nat p ∉ repl_blocks → blocks model' !! p = blocks model !! p)
    ∧ length (blocks model') = length (blocks model)
    ∧ pos_embed model' = pos_embed model
    ∧ patch_embed_num_patches model' = patch_embed_num_patches model
    ∧ stem model' = stem model
    ∧ norm model' = norm model ∧ fc_norm model' = fc_norm model
    ∧ head_drop model' = head_drop model ∧ head model' = head model.
Proof.
  intros Hvalid He Hnp Hthd Hcd Hchd Hps.
  rewrite (replace_att2mixer_run _ _ _ _ _ _ _ _ _ He Hnp Hthd Hcd Hchd Hps).
  destruct (seq_setitems_ok repl_blocks (MixerBlock np thd cd chd ps) (blocks model))
    as (bs & Hrun & Hlen & Hlook).
  { eapply Forall_impl; [exact Hvalid|]. simpl. intros i Hi. lia. }
  rewrite Hrun. simpl. eexists. split; [reflexivity|]. simpl.
  rewrite Forall_forall in Hvalid.
  split; [|split; [|repeat split; done]].
  - intros i Hi. rewrite Hlook. rewrite decide_True; [done|].
    apply Exists_exists. exists i. split; [done|].
    specialize (Hvalid i Hi). by rewrite Z.mod_small by lia.
  - intros p Hp. rewrite Hlook. rewrite decide_False; [done|].
    intros (i & Hi & Hpos)%Exists_exists.
    specialize (Hvalid i Hi). rewrite Z.mod_small in Hpos by lia.
    apply Hp. by replace (Z.of_nat p) with i by lia.
Qed.

(** The replacer raises [KeyError] on the model name as soon as there is
    an index to process and the table has no entry for the name. *)
Lemma replace_att2mixer_unknown_model (model : Model scalar) (i : Z) (rest : list Z)
    (model_name : string) :
  param_dict !! model_name = None →
  replace_att2mixer model (i :: rest) model_name = inl (KeyError model_name).
Proof. intros He. simpl. by rewrite (param_dict_entry_absent _ _ He). Qed.

(** The replacer raises when some index lies outside [-depth, depth). *)
Lemma replace_att2mixer_out_of_range (repl_blocks : list Z) (model : Model scalar)
    (model_name : string) :
  Exists (λ i, ¬ (- Z.of_nat (length (blocks model)) ≤ i
                  < Z.of_nat (length (blocks model)))%Z) repl_blocks →
  raises (replace_att2mixer model repl_blocks model_name).
Proof.
  revert model. induction repl_blocks as [|i rest IH]; intros model Hex.
  - by apply Exists_nil in Hex.
  - simpl.
    destruct (param_dict_entry model_name "num_patches") as [e|np]; [by eexists|]; simpl.
    destruct (param_dict_entry model_name "token_hid_dim") as [e|thd]; [by eexists|]; simpl.
    destruct (param_dict_entry model_name "channels_dim") as [e|cd]; [by eexists|]; simpl.
    destruct (param_dict_entry model_name "channels_hid_dim") as [e|chd]; [by eexists|]; simpl.
    destruct (mixer_block_init np thd cd chd) as [e|ps]; [by eexists|]; simpl.
    unfold seq_setitem.
    destruct (decide (- Z.of_nat (length (blocks model)) ≤ i
                      < Z.of_nat (length (blocks model)))%Z) as [Hi|Hi].
    + destruct (seq_index_ok _ _ Hi) as [-> _]. simpl.
      apply IH. simpl. rewrite length_insert.
      by apply Exists_cons in Hex as [?|?].
    + rewrite (seq_index_raises _ _ Hi). by eexists.
Qed.

(** C5 (amended).  The block replacer raises whenever the index list is
    not empty and the model name has no entry in the parameter table, and
    whenever some index lies outside [-depth, depth), the range in which
    the block sequence accepts an index (a negative index counts from the
    end). *)
Theorem replace_att2mixer_failure (model : Model scalar) (repl_blocks : list Z)
    (model_name : string) :
  (repl_blocks ≠ [] ∧ param_dict !! model_name = None)
  ∨ Exists (λ i, ¬ (- Z.of_nat (length (blocks model)) ≤ i
                    < Z.of_nat (length (blocks model)))%Z) repl_blocks →
  raises (replace_att2mixer model repl_blocks model_name).
Proof.
  intros [[Hne He]|Hex].
  - destruct repl_blocks as [|i rest]; [done|].
    rewrite (replace_att2mixer_unknown_model _ _ _ _ He). by eexists.
  - by apply replace_att2mixer_out_of_range.
Qed.

(** ** Checkpoint loader: the head keys *)

Lemma drop_mismatched_heads_missing (state : gmap string (Tensor scalar))
    (keys : list string) (checkpoint_model : gmap string (Tensor scalar)) (k : string) :
  k ∈ keys → is_Some (checkpoint_model !! k) → state !! k = None →
  ∃ k', k' ∈ keys ∧ state !! k' = None
        ∧ drop_mismatched_heads state checkpoint_model keys = inl (KeyError k').
Proof.
  revert checkpoint_model.
  induction keys as [|k0 keys IH]; intros checkpoint_model Hin Hck Hst.
  - by apply elem_of_nil in Hin.
  - simpl. destruct (checkpoint_model !! k0) as [t|] eqn:Hk0.
    + unfold getitem. destruct (state !! k0) as [s|] eqn:Hs0.
      * assert (k ≠ k0) as Hne by congruence.
        apply elem_of_cons in Hin as [?|Hin]; [done|].
        simpl. destruct (decide (shape t ≠ shape s)).
        -- destruct (IH (delete k0 checkpoint_model)) as (k' & ? & ? & ?);
             [done| by rewrite lookup_delete_ne |done|].
           exists k'. split; [by apply list_elem_of_further | done].
        -- destruct (IH checkpoint_model) as (k' & ? & ? & ?); [done..|].
           exists k'. split; [by apply list_elem_of_further | done].
      * exists k0. split; [by apply list_elem_of_here | done].
    + assert (k ≠ k0) as Hne.
      { intros ->. rewrite Hk0 in Hck. by destruct Hck. }
      apply elem_of_cons in Hin as [?|Hin]; [done|].
      destruct (IH checkpoint_model) as (k' & ? & ? & ?); [done..|].
      exists k'. split; [by apply list_elem_of_further | done].
Qed.

(** C9.  When the checkpoint dictionary has one of the four head keys and
    the model's state dict has no entry of that name, the loader raises a
    [KeyError]: the state dict is indexed as soon as the checkpoint has the
    key, before any shape is compared. *)
Theorem load_weight_missing_head_key (model : Model scalar) (weight : string)
    (checkpoint : gmap string (gmap string (Tensor scalar)))
    (checkpoint_model : gmap string (Tensor scalar)) (k : string) :
  (if startswith weight "https" then load_state_dict_from_url weight
   else torch_load weight) = inr checkpoint →
  checkpoint !! "model" = Some checkpoint_model →
  k ∈ head_keys →
  is_Some (checkpoint_model !! k) →
  state_dict model !! k = None →
  ∃ k', k' ∈ head_keys ∧ state_dict model !! k' = None
        ∧ load_weight model weight = inl (KeyError k').
Proof.
  intros Hfetch Hmodel Hin Hck Hst.
  destruct (drop_mismatched_heads_missing _ _ _ _ Hin Hck Hst) as (k' & Hk' & Hst' & Hrun).
  exists k'. split; [done|]. split; [done|].
  unfold load_weight. rewrite Hfetch. simpl.
  unfold getitem at 1. rewrite Hmodel. simpl.
  unfold prepare_checkpoint. by rewrite Hrun.
Qed.

(** ** Orchestrator *)

Lemma io_bind_call {A B : Type} (ev : Event scalar) (r : result A) (k : A → IO B) :
  io_bind (call ev r) k
  = match r with
    | inl e => ([ev], inl e)
    | inr a => (ev :: (k a).1, (k a).2)
    end.
Proof. unfold io_bind, call. simpl. by destruct r. Qed.

Lemma io_bind_pure_step {A B : Type} (r : result A) (k : A → IO (scalar := scalar) B) :
  io_bind (pure_step r) k
  = match r with
    | inl e => ([], inl e)
    | inr a => k a
    end.
Proof. unfold io_bind, pure_step. simpl. destruct r; [done|]. by destruct (k a). Qed.

Lemma elem_of_io_bind_call {A B : Type} (ev ev0 : Event scalar) (r : result A) (k : A → IO B) :
  ev ∈ (io_bind (call ev0 r) k).1 → ev = ev0 ∨ ∃ a, r = inr a ∧ ev ∈ (k a).1.
Proof.
  rewrite io_bind_call. destruct r as [e|a]; simpl.
  - intros ?%list_elem_of_singleton. by left.
  - intros [?|?]%elem_of_cons; [by left | right; eauto].
Qed.

Lemma elem_of_io_bind_pure_step {A B : Type} (ev : Event scalar) (r : result A)
    (k : A → IO B) :
  ev ∈ (io_bind (pure_step r) k).1 → ∃ a, r = inr a ∧ ev ∈ (k a).1.
Proof.
  rewrite io_bind_pure_step. destruct r as [e|a]; simpl.
  - by intros ?%elem_of_nil.
  - eauto.
Qed.



Lemma set_requires_grad_empty_block (m : Model scalar) targets freeze (p : nat) :
  blocks (set_requires_grad m targets freeze) !! p = Some EmptyBlock →
  blocks m !! p = Some EmptyBlock.
Proof.
  unfold set_requires_grad, map_model. simpl. rewrite list_lookup_imap.
  destruct (blocks m !! p) as [b|]; simpl; [|done].
  by destruct b.
Qed.

(** C10 (amended).  Whenever the orchestrator reaches the training loop,
    the student and the teacher it hands over were both truncated with the
    default depth 12 at the largest replacement index; and when that index
    is at least -1 (in particular for every list of positions counted from
    0), each block at a position from 12 on is the block the loaded model
    had there, so none of them has become a pass-through block. *)
Theorem main_truncates_at_default_depth (args : Args) (student teacher : Model scalar)
    (n : Z) :
  TrainModel student teacher n ∈ (main args).1 →
  ∃ repl_blocks max_index model_deit model_repl model model_ori cut cut_ori,
    replace args = Some repl_blocks
    ∧ py_max repl_blocks = inr max_index
    ∧ replace_att2mixer model_deit repl_blocks (d_model args) = inr model_repl
    ∧ load_weight model_repl (d_weight args) = inr model
    ∧ load_weight model_deit (d_weight args) = inr model_ori
    ∧ cut_extra_layers model max_index 12 = inr cut
    ∧ cut_extra_layers model_ori max_index 12 = inr cut_ori
    ∧ student = set_requires_grad cut repl_blocks true
    ∧ teacher = set_requires_grad cut_ori [] true
    ∧ ((-1 ≤ max_index)%Z →
       ∀ p : nat, (12 ≤ p)%nat →
         blocks cut !! p = blocks model !! p
         ∧ blocks cut_ori !! p = blocks model_ori !! p
         ∧ (blocks student !! p = Some EmptyBlock → blocks model !! p = Some EmptyBlock)
         ∧ (blocks teacher !! p = Some EmptyBlock → blocks model_ori !! p = Some EmptyBlock)).
Proof.
  unfold main. intros Hin.
  apply elem_of_io_bind_call in Hin as [Hin|(classes & _ & Hin)]; [discriminate|].
  apply elem_of_io_bind_call in Hin as [Hin|(classes' & _ & Hin)]; [discriminate|].
  apply elem_of_io_bind_call in Hin as [Hin|(model_deit & _ & Hin)]; [discriminate|].
  apply elem_of_io_bind_call in Hin as [Hin|(model_ori0 & Hcopy & Hin)]; [discriminate|].
  inversion Hcopy; subst model_ori0.
  apply elem_of_io_bind_call in Hin as [Hin|(model_repl & Hrepl & Hin)]; [discriminate|].
  simpl in Hrepl, Hin.
  apply bind_inr in Hrepl as (repl_blocks & Hiter & Hrepl).
  destruct (replace args) as [l|] eqn:Hargs; simpl in Hiter; [|discriminate].
  inversion Hiter; subst l. simpl in Hin.
  destruct (eval args && negb (train args)).
  { apply elem_of_io_bind_call in Hin as [Hin|(? & _ & Hin)]; [discriminate|].
    simpl in Hin. apply list_elem_of_singleton in Hin. discriminate. }
  destruct (train args && negb (eval args)).
  2:{ simpl in Hin. by apply elem_of_nil in Hin. }
  apply elem_of_io_bind_call in Hin as [Hin|(model & Hload & Hin)]; [discriminate|].
  apply elem_of_io_bind_call in Hin as [Hin|(model_ori & Hload_ori & Hin)]; [discriminate|].
  apply elem_of_io_bind_pure_step in Hin as (cut & Hcut & Hin).
  apply elem_of_io_bind_pure_step in Hin as (cut_ori & Hcut_ori & Hin).
  simpl in Hcut, Hcut_ori.
  apply bind_inr in Hcut as (max_index & Hmax & Hcut).
  apply bind_inr in Hcut_ori as (max_index' & Hmax' & Hcut_ori).
  assert (max_index' = max_index) as -> by congruence.
  apply elem_of_io_bind_call in Hin as [Hin|(? & _ & Hin)]; [discriminate|].
  apply elem_of_io_bind_call in Hin as [Hin|(? & _ & Hin)]; [discriminate|].
  apply elem_of_io_bind_pure_step in Hin as (repl' & Hrepl' & Hin).
  simpl in Hrepl'. inversion Hrepl'; subst repl'.
  apply elem_of_io_bind_call in Hin as [Hin|(? & _ & Hin)]; [discriminate|].
  apply elem_of_io_bind_call in Hin as [Hin|(? & _ & Hin)]; [discriminate|].
  apply elem_of_io_bind_call in Hin as [Hin|(? & _ & Hin)]; [discriminate|].
  simpl in Hin. apply list_elem_of_singleton in Hin.
  inversion Hin; subst student teacher n.
  exists repl_blocks, max_index, model_deit, model_repl, model, model_ori, cut, cut_ori.
  unfold default_depth, default_freeze in *.
  repeat (split; [done|]).
  intros Hmax1 p Hp.
  pose proof (cut_extra_layers_beyond_depth _ _ _ _ Hcut Hmax1 p ltac:(lia)) as Hb.
  pose proof (cut_extra_layers_beyond_depth _ _ _ _ Hcut_ori Hmax1 p ltac:(lia)) as Hb_ori.
  repeat split; [done|done|..].
  - intros He%set_requires_grad_empty_block. by rewrite <- Hb.
  - intros He%set_requires_grad_empty_block. by rewrite <- Hb_ori.
Qed.

(** ** Lists cut into rows *)

Lemma length_chunks {A : Type} (c s : nat) (l : list A) : length (chunks c s l) = c.
Proof. revert l. induction c as [|c IH]; intros l; simpl; [done|]. by rewrite IH. Qed.

Lemma chunks_concat_app {A : Type} (ls : list (list A)) (s : nat) (rest : list A) :
  Forall (λ x, length x = s) ls → chunks (length ls) s (concat ls ++ rest) = ls.
Proof.
  induction 1 as [|x ls Hx _ IH]; simpl; [done|].
  rewrite <- app_assoc. rewrite take_app_length' by done.
  rewrite drop_app_length' by done. by rewrite IH.
Qed.

Lemma chunks_concat {A : Type} (ls : list (list A)) (s : nat) :
  Forall (λ x, length x = s) ls → chunks (length ls) s (concat ls) = ls.
Proof. intros Hall. rewrite <- (app_nil_r (concat ls)). by apply chunks_concat_app. Qed.

Lemma concat_chunks {A : Type} (c s : nat) (l : list A) :
  length l = (c * s)%nat → concat (chunks c s l) = l.
Proof.
  revert l. induction c as [|c IH]; intros l Hlen; simpl in *.
  - by destruct l.
  - rewrite IH; [apply take_drop|]. rewrite length_drop. lia.
Qed.

Lemma Forall_length_chunks {A : Type} (c s : nat) (l : list A) :
  (c * s ≤ length l)%nat → Forall (λ x, length x = s) (chunks c s l).
Proof.
  revert l. induction c as [|c IH]; intros l Hlen; simpl in *; [done|].
  constructor.
  - rewrite length_take. lia.
  - apply IH. rewrite length_drop. lia.
Qed.

Lemma length_concat_uniform {A : Type} (ls : list (list A)) (s : nat) :
  Forall (λ x, length x = s) ls → length (concat ls) = (length ls * s)%nat.
Proof.
  induction 1 as [|x ls Hx _ IH]; simpl; [done|].
  rewrite length_app, IH. lia.
Qed.

(** ** Reordering the entries of a tensor *)

Lemma length_gather (n : nat) (src : nat → nat) (l : list scalar) :
  (l = [] → n = 0%nat) → length (gather n src l) = n.
Proof.
  intros Hn. unfold gather. destruct l as [|d l'].
  - by rewrite Hn.
  - by rewrite length_map, length_seq.
Qed.

Lemma gather_lookup (n : nat) (src : nat → nat) (l : list scalar) (k : nat) :
  (k < n)%nat → (src k < length l)%nat → gather n src l !! k = l !! src k.
Proof.
  intros Hk Hsrc. unfold gather. destruct l as [|d l']; [simpl in Hsrc; lia|].
  generalize dependent (d :: l'). intros l Hsrc.
  rewrite list_lookup_fmap, lookup_seq_lt by done. simpl.
  destruct (lookup_lt_is_Some_2 l (src k) Hsrc) as [x Hx].
  rewrite Hx. f_equal. by apply nth_lookup_Some.
Qed.

Lemma gather_inverse (n : nat) (f g : nat → nat) (l : list scalar) :
  length l = n →
  (∀ k, k < n → g k < n ∧ f (g k) = k)%nat →
  gather n g (gather n f l) = l.
Proof.
  intros Hlen Hinv.
  assert (length (gather n f l) = n) as Hlf.
  { apply length_gather. intros ->. by simpl in Hlen. }
  assert (length (gather n g (gather n f l)) = n) as Hlg.
  { apply length_gather. intros Hnil. rewrite Hnil in Hlf. by simpl in Hlf. }
  apply list_eq. intros k.
  destruct (decide (k < n)%nat) as [Hk|Hk].
  - destruct (Hinv k Hk) as [Hg Hfg].
    rewrite gather_lookup by lia. rewrite gather_lookup by lia. by rewrite Hfg.
  - rewrite !lookup_ge_None_2; [done|lia..].
Qed.

Lemma permute_index_inverse (b c hw k : nat) :
  (0 < c)%nat → (0 < hw)%nat → (k < b * (hw * c))%nat →
  let j := ((k `div` (hw * c)) * (c * hw) + (k `mod` (hw * c)) `mod` c * hw
            + (k `mod` (hw * c)) `div` c)%nat in
  (j < b * (hw * c))%nat
  ∧ ((j `div` (c * hw)) * (hw * c) + (j `mod` (c * hw)) `mod` hw * c
     + (j `mod` (c * hw)) `div` hw)%nat = k.
Proof.
  intros Hc Hhw Hk.
  pose proof (Nat.div_mod_eq k (hw * c)) as Hk1.
  pose proof (Nat.mod_upper_bound k (hw * c) ltac:(lia)) as Hr.
  set (bi := (k `div` (hw * c))%nat) in *. set (r := (k `mod` (hw * c))%nat) in *.
  pose proof (Nat.div_mod_eq r c) as Hr1.
  pose proof (Nat.mod_upper_bound r c ltac:(lia)) as Hci.
  set (p := (r `div` c)%nat) in *. set (ci := (r `mod` c)%nat) in *.
  assert (p < hw)%nat as Hp by nia.
  assert (bi < b)%nat as Hbi by nia.
  simpl.
  assert (((bi * (c * hw) + ci * hw + p) `div` (c * hw))%nat = bi) as Hd.
  { symmetry. apply (Nat.div_unique _ _ _ (ci * hw + p)); nia. }
  assert (((bi * (c * hw) + ci * hw + p) `mod` (c * hw))%nat = (ci * hw + p)%nat) as Hm.
  { symmetry. apply (Nat.mod_unique _ _ bi); nia. }
  rewrite Hd, Hm.
  assert (((ci * hw + p) `div` hw)%nat = ci) as Hd2.
  { symmetry. apply (Nat.div_unique _ _ _ p); nia. }
  assert (((ci * hw + p) `mod` hw)%nat = p) as Hm2.
  { symmetry. apply (Nat.mod_unique _ _ ci); nia. }
  rewrite Hd2, Hm2. split; nia.
Qed.

(** ** Tensor operations keep tensors well formed *)

Lemma slice_dim1_eq (t : Tensor scalar) (d0 d1 : nat) (rest : list nat) (lo hi : nat) :
  shape t = d0 :: d1 :: rest →
  slice_dim1 t lo hi
  = inr (mkTensor (d0 :: (hi - lo)%nat :: rest)
           (concat (map (λ b, take ((hi - lo) * numel rest) (drop (lo * numel rest) b))
                        (chunks d0 (d1 * numel rest) (data t))))).
Proof. intros Hs. unfold slice_dim1. by rewrite Hs. Qed.

Lemma Forall_length_slices {A : Type} (ls : list (list A)) (row lo width : nat) :
  Forall (λ x, length x = row) ls → (width = 0 ∨ lo + width ≤ row)%nat →
  Forall (λ x, length x = width) (map (λ b, take width (drop lo b)) ls).
Proof.
  intros Hall Hle. apply Forall_forall. intros y Hy.
  apply list_elem_of_fmap in Hy as (x & -> & Hx).
  rewrite Forall_forall in Hall. specialize (Hall x Hx).
  rewrite length_take, length_drop. lia.
Qed.

Lemma wf_slice_dim1 (t t' : Tensor scalar) (d0 d1 : nat) (rest : list nat) (lo hi : nat) :
  wf_tensor t → shape t = d0 :: d1 :: rest → (hi ≤ d1)%nat →
  slice_dim1 t lo hi = inr t' → wf_tensor t'.
Proof.
  intros Hwf Hs Hhi. rewrite (slice_dim1_eq _ _ _ _ _ _ Hs). intros Heq.
  inversion Heq; subst t'. unfold wf_tensor in *. simpl.
  rewrite Hs in Hwf. simpl in Hwf.
  rewrite (length_concat_uniform _ ((hi - lo) * numel rest)).
  - by rewrite length_map, length_chunks.
  - apply (Forall_length_slices _ (d1 * numel rest)).
    + apply Forall_length_chunks. lia.
    + destruct (decide (lo ≤ hi)%nat) as [Hle|Hgt].
      * right. rewrite <- Nat.mul_add_distr_r.
        apply Nat.mul_le_mono_r. lia.
      * left. replace (hi - lo)%nat with 0%nat by lia. done.
Qed.

Lemma wf_reshape_infer (t t' : Tensor scalar) (s1 s2 s3 : nat) :
  wf_tensor t → reshape_infer t s1 s2 s3 = inr t' → wf_tensor t'.
Proof.
  unfold reshape_infer, wf_tensor. intros Hwf.
  destruct (decide (_ = 0)%nat) as [|Hk]; [discriminate|].
  destruct (decide (_ `mod` _ = 0)%nat) as [Hm|]; [|discriminate].
  intros Heq. inversion Heq; subst t'. simpl. rewrite Hwf.
  pose proof (Nat.div_mod_eq (numel (shape t)) (s1 * s2 * s3)) as Hd.
  rewrite Hm in Hd. nia.
Qed.

Lemma wf_permute_0312 (t t' : Tensor scalar) :
  wf_tensor t → permute_0312 t = inr t' → wf_tensor t'.
Proof.
  unfold permute_0312, wf_tensor. intros Hwf.
  destruct (shape t) as [|b [|h [|w [|c [|]]]]] eqn:Hs; try discriminate.
  intros Heq. inversion Heq; subst t'. simpl in *.
  rewrite length_gather; [lia|]. intros Hnil. rewrite Hnil in Hwf. simpl in Hwf. nia.
Qed.

Lemma wf_permute_0231 (t t' : Tensor scalar) :
  wf_tensor t → permute_0231 t = inr t' → wf_tensor t'.
Proof.
  unfold permute_0231, wf_tensor. intros Hwf.
  destruct (shape t) as [|b [|c [|h [|w [|]]]]] eqn:Hs; try discriminate.
  intros Heq. inversion Heq; subst t'. simpl in *.
  rewrite length_gather; [lia|]. intros Hnil. rewrite Hnil in Hwf. simpl in Hwf. nia.
Qed.

Lemma wf_flatten_1_2 (t t' : Tensor scalar) :
  wf_tensor t → flatten_1_2 t = inr t' → wf_tensor t'.
Proof.
  unfold flatten_1_2, wf_tensor. intros Hwf.
  destruct (shape t) as [|d0 [|d1 [|d2 rest]]] eqn:Hs; try discriminate.
  intros Heq. inversion Heq; subst t'. simpl in *. lia.
Qed.

(** The first rows of a concatenation along dimension 1 are the first
    operand. *)
Lemma slice_cat_dim1_left (extra x new : Tensor scalar) (d0 a : nat) (rest : list nat) :
  wf_tensor extra → wf_tensor x → shape extra = d0 :: a :: rest →
  cat_dim1 extra x = inr new →
  slice_dim1 new 0 a = inr extra.
Proof.
  unfold cat_dim1, wf_tensor. intros Hwe Hwx Hse. rewrite Hse.
  destruct (shape x) as [|b0 [|b1 brest]] eqn:Hsx; try discriminate.
  destruct (decide _) as [[<- <-]|]; [|discriminate].
  intros Heq. inversion Heq; subst new. clear Heq.
  rewrite Hse in Hwe. simpl in Hwe, Hwx.
  set (inner := numel rest) in *.
  unfold slice_dim1. simpl. fold inner.
  set (EC := chunks d0 (a * inner) (data extra)).
  set (XC := chunks d0 (b1 * inner) (data x)).
  assert (Forall (λ l, length l = (a * inner)%nat) EC) as HEC
    by (apply Forall_length_chunks; lia).
  assert (Forall (λ l, length l = (b1 * inner)%nat) XC) as HXC
    by (apply Forall_length_chunks; lia).
  assert (length EC = d0) as HlE by apply length_chunks.
  assert (length XC = d0) as HlX by apply length_chunks.
  assert (length (zip_with app EC XC) = d0) as Hlz
    by (rewrite length_zip_with; lia).
  assert (Forall (λ l, length l = ((a + b1) * inner)%nat) (zip_with app EC XC)) as Hz.
  { apply Forall_forall. intros l Hl.
    apply elem_of_lookup_zip_with in Hl as (i & e & y & -> & He & Hy).
    rewrite Forall_forall in HEC, HXC.
    rewrite length_app, (HEC e), (HXC y); [lia|by eapply list_elem_of_lookup_2..]. }
  pose proof (chunks_concat _ _ Hz) as Hch. rewrite Hlz in Hch. rewrite Hch.
  assert (map (λ b, take ((a - 0) * inner) (drop 0 b)) (zip_with app EC XC) = EC)
    as ->.
  { apply list_eq. intros i. rewrite list_lookup_fmap, lookup_zip_with.
    destruct (EC !! i) as [e|] eqn:He; simpl; [|done].
    destruct (lookup_lt_is_Some_2 XC i) as [y Hy].
    { rewrite HlX, <- HlE. by eapply lookup_lt_Some. }
    rewrite Hy. simpl. f_equal. rewrite Nat.sub_0_r, drop_0.
    rewrite Forall_forall in HEC.
    rewrite take_app_length'; [done|]. symmetry. apply HEC.
    by eapply list_elem_of_lookup_2. }
  unfold EC. rewrite concat_chunks by lia. rewrite Nat.sub_0_r.
  destruct extra as [se de]. simpl in *. by subst se.
Qed.

Lemma slice_bound_le (len : nat) (i : Z) : (slice_bound len i ≤ len)%nat.
Proof. unfold slice_bound. destruct (decide (i < 0)%Z); lia. Qed.

Lemma slice_bound_nonneg (len : nat) (i : Z) :
  (0 ≤ i ≤ Z.of_nat len)%Z → slice_bound len i = Z.to_nat i.
Proof. intros Hi. unfold slice_bound. rewrite decide_False by lia. lia. Qed.

Lemma slice_dim1_empty (t : Tensor scalar) (d0 d1 : nat) (rest : list nat) :
  shape t = d0 :: d1 :: rest →
  slice_dim1 t 0 0 = inr (mkTensor (d0 :: 0%nat :: rest) []).
Proof.
  intros Hs. rewrite (slice_dim1_eq _ _ _ _ _ _ Hs). simpl. do 2 f_equal.
  induction (chunks d0 (d1 * numel rest) (data t)) as [|c cs IH]; [done|].
  simpl. exact IH.
Qed.

Lemma cat_dim1_shape (a b new : Tensor scalar) (a0 a1 : nat) (arest : list nat) :
  shape a = a0 :: a1 :: arest → cat_dim1 a b = inr new →
  ∃ b1, shape b = a0 :: b1 :: arest ∧ shape new = a0 :: (a1 + b1)%nat :: arest.
Proof.
  unfold cat_dim1. intros ->.
  destruct (shape b) as [|b0 [|b1 brest]]; try discriminate.
  destruct (decide _) as [[<- <-]|]; [|discriminate].
  intros Heq. inversion Heq. simpl. eauto.
Qed.

(** C7.  The resampling of the positional embedding leaves the extra-token
    rows alone: whenever the loader builds a new positional embedding from
    the checkpoint's, the leading [num_extra_tokens] rows of the new tensor
    (the class and distillation tokens) are the corresponding rows of the
    checkpoint's tensor, whatever the resampling kernel computes on the
    grid. *)
Theorem interpolate_pos_embed_extra_tokens (model : Model scalar)
    (checkpoint_model : gmap string (Tensor scalar))
    (pos_embed_checkpoint new_pos_embed : Tensor scalar) (model_tokens : nat) :
  (∀ t h w t', wf_tensor t → interpolate t h w = inr t' → wf_tensor t') →
  checkpoint_model !! "pos_embed" = Some pos_embed_checkpoint →
  wf_tensor pos_embed_checkpoint →
  shape_last2 (value (pos_embed model)) = inr model_tokens →
  interpolate_pos_embed model checkpoint_model = inr new_pos_embed →
  let num_extra_tokens :=
    Z.to_nat (Z.of_nat model_tokens - patch_embed_num_patches model) in
  ∃ extra_tokens,
    slice_dim1 new_pos_embed 0 num_extra_tokens = inr extra_tokens
    ∧ slice_dim1 pos_embed_checkpoint 0 num_extra_tokens = inr extra_tokens.
Proof.
  intros Hkernel Hpe Hwf Hmt Hrun.
  set (nx := (Z.of_nat model_tokens - patch_embed_num_patches model)%Z).
  unfold interpolate_pos_embed in Hrun.
  apply bind_inr in Hrun as (pe & Hget & Hrun).
  unfold getitem in Hget. rewrite Hpe in Hget. inversion Hget; subst pe. clear Hget.
  apply bind_inr in Hrun as (E & HE & Hrun).
  apply bind_inr in Hrun as (mt & Hmt' & Hrun).
  assert (mt = model_tokens) as -> by congruence. fold nx in Hrun.
  apply bind_inr in Hrun as (ct & Hct & Hrun).
  apply bind_inr in Hrun as (orig & Horig & Hrun).
  apply bind_inr in Hrun as (ns & Hns & Hrun).
  apply bind_inr in Hrun as (extra & Hextra & Hrun).
  apply bind_inr in Hrun as (pos & Hpos & Hrun).
  apply bind_inr in Hrun as (r1 & Hr1 & Hrun).
  apply bind_inr in Hrun as (p1 & Hp1 & Hrun).
  apply bind_inr in Hrun as (y & Hy & Hrun).
  apply bind_inr in Hrun as (p2 & Hp2 & Hrun).
  apply bind_inr in Hrun as (x & Hx & Hcat).
  (* the checkpoint's tensor has a second dimension *)
  unfold take_dim1 in Hextra. unfold drop_dim1 in Hpos.
  destruct (shape pos_embed_checkpoint) as [|d0 [|d1 rest]] eqn:Hs; try discriminate.
  set (a := slice_bound d1 nx) in *.
  pose proof (slice_bound_le d1 nx) as Ha. fold a in Ha.
  (* every intermediate tensor is well formed *)
  pose proof (wf_slice_dim1 _ _ _ _ _ _ _ Hwf Hs Ha Hextra) as Hwextra.
  pose proof (wf_slice_dim1 _ _ _ _ _ _ _ Hwf Hs (Nat.le_refl d1) Hpos) as Hwpos.
  pose proof (wf_reshape_infer _ _ _ _ _ Hwpos Hr1) as Hwr1.
  pose proof (wf_permute_0312 _ _ Hwr1 Hp1) as Hwp1.
  pose proof (Hkernel _ _ _ _ Hwp1 Hy) as Hwy.
  pose proof (wf_permute_0231 _ _ Hwy Hp2) as Hwp2.
  pose proof (wf_flatten_1_2 _ _ Hwp2 Hx) as Hwx.
  assert (shape extra = d0 :: a :: rest) as Hsextra.
  { rewrite (slice_dim1_eq _ _ _ _ _ _ Hs) in Hextra. inversion Hextra. simpl.
    by rewrite Nat.sub_0_r. }
  pose proof (slice_cat_dim1_left _ _ _ _ _ _ Hwextra Hwx Hsextra Hcat) as Hleft.
  destruct (cat_dim1_shape _ _ _ _ _ _ Hsextra Hcat) as (b1 & Hsx & Hsnew).
  (* the concatenation only succeeds on a tensor of three dimensions *)
  assert (∃ c, rest = [c]) as [c ->].
  { unfold permute_0231 in Hp2.
    destruct (shape y) as [|yb [|yc [|yh [|yw [|]]]]]; try discriminate.
    inversion Hp2; subst p2. unfold flatten_1_2 in Hx. simpl in Hx.
    inversion Hx; subst x. simpl in Hsx. inversion Hsx. eauto. }
  assert (ct = d1) as ->.
  { unfold shape_last2 in Hct. rewrite Hs in Hct. by inversion Hct. }
  simpl. destruct (decide (0 ≤ nx)%Z) as [Hnx|Hnx].
  - assert (Z.to_nat nx = a) as ->.
    { unfold int_sqrt in Horig.
      destruct (decide (Z.of_nat d1 - nx < 0)%Z); [discriminate|].
      unfold a. rewrite slice_bound_nonneg; [done|lia]. }
    exists extra. by split.
  - replace (Z.to_nat nx) with 0%nat by lia.
    exists (mkTensor (d0 :: 0%nat :: [c]) []).
    split; by eapply slice_dim1_empty.
Qed.

(** ** Resampling onto a grid of the same size *)

Lemma bind_ret {A B : Type} (a : A) (k : A → result B) : bind (inr a) k = k a.
Proof. reflexivity. Qed.


(** Moving the channel axis in front of the grid and back is the
    identity. *)
Lemma permute_round_trip (r1 : Tensor scalar) (b g1 g2 e : nat) :
  shape r1 = [b; g1; g2; e] → wf_tensor r1 → (0 < e)%nat → (0 < g1 * g2)%nat →
  ∃ p1, permute_0312 r1 = inr p1
        ∧ shape p1 = [b; e; g1; g2]
        ∧ wf_tensor p1
        ∧ permute_0231 p1 = inr r1.
Proof.
  intros Hs Hwf He Hg.
  destruct (permute_0312 r1) as [err|p1] eqn:Hp1.
  { unfold permute_0312 in Hp1. rewrite Hs in Hp1. discriminate. }
  exists p1. split; [done|].
  pose proof (wf_permute_0312 _ _ Hwf Hp1) as Hwp1.
  unfold permute_0312 in Hp1. rewrite Hs in Hp1. inversion Hp1; subst p1. clear Hp1.
  split; [done|]. split; [done|].
  unfold permute_0231. simpl.
  unfold wf_tensor in Hwf. rewrite Hs in Hwf. simpl in Hwf.
  replace (b * (e * (g1 * g2)))%nat with (b * (g1 * g2 * e))%nat by lia.
  rewrite gather_inverse.
  - destruct r1 as [sr dr]. simpl in *. by subst sr.
  - lia.
  - intros k Hk. by apply permute_index_inverse.
Qed.

Lemma int_sqrt_square (s : Z) : (0 ≤ s)%Z → int_sqrt (s * s) = inr s.
Proof.
  intros Hs. unfold int_sqrt. rewrite decide_False by nia.
  by rewrite Z.sqrt_square.
Qed.


(** The loader's steps up to the resampling kernel, on a checkpoint whose
    positional embedding holds the model's extra tokens followed by an
    [s] by [s] grid: the kernel receives the grid with the channel axis in
    front, and what it returns is permuted back, flattened and appended to
    the extra tokens. *)
Lemma interpolate_pos_embed_grid (model : Model scalar)
    (checkpoint_model : gmap string (Tensor scalar))
    (pos_embed_checkpoint : Tensor scalar) (b n e model_tokens : nat) (s new_size : Z) :
  checkpoint_model !! "pos_embed" = Some pos_embed_checkpoint →
  shape pos_embed_checkpoint = [b; n; e] →
  wf_tensor pos_embed_checkpoint →
  shape_last2 (value (pos_embed model)) = inr model_tokens →
  (0 ≤ Z.of_nat model_tokens - patch_embed_num_patches model)%Z →
  (0 < s)%Z → (0 < e)%nat →
  (Z.of_nat n - (Z.of_nat model_tokens - patch_embed_num_patches model) = s * s)%Z →
  int_sqrt (patch_embed_num_patches model) = inr new_size →
  let a := Z.to_nat (Z.of_nat model_tokens - patch_embed_num_patches model) in
  let g := Z.to_nat s in
  ∃ extra pos grid,
    slice_dim1 pos_embed_checkpoint 0 a = inr extra
    ∧ slice_dim1 pos_embed_checkpoint a n = inr pos
    ∧ shape pos = [b; (g * g)%nat; e]
    ∧ shape grid = [b; e; g; g]
    ∧ wf_tensor grid
    ∧ permute_0231 grid = inr (mkTensor [b; g; g; e] (data pos))
    ∧ interpolate_pos_embed model checkpoint_model
      = (do pos_tokens <- interpolate grid (Z.to_nat new_size) (Z.to_nat new_size);
         do pos_tokens <- permute_0231 pos_tokens;
         do pos_tokens <- flatten_1_2 pos_tokens;
         cat_dim1 extra pos_tokens).
Proof.
  intros Hpe Hs Hwf Hmt Hnx Hspos He Hgrid Hnew.
  set (nx := (Z.of_nat model_tokens - patch_embed_num_patches model)%Z) in *.
  intros a g.
  assert (n = a + g * g)%nat as Hn by nia.
  unfold interpolate_pos_embed.
  unfold getitem. rewrite Hpe, bind_ret.
  unfold shape_last at 1. rewrite Hs. cbn [reverse rev_append bind].
  rewrite Hmt, bind_ret.
  unfold shape_last2 at 1. rewrite Hs. cbn [reverse rev_append bind].
  fold nx. rewrite Hgrid, (int_sqrt_square s) by lia. rewrite bind_ret.
  rewrite Hnew, bind_ret.
  unfold take_dim1, drop_dim1. rewrite Hs.
  rewrite (slice_bound_nonneg n nx) by lia. fold a g.
  destruct (slice_dim1 pos_embed_checkpoint 0 a) as [err|extra] eqn:Hextra.
  { rewrite (slice_dim1_eq _ _ _ _ _ _ Hs) in Hextra. discriminate. }
  destruct (slice_dim1 pos_embed_checkpoint a n) as [err|pos] eqn:Hpos.
  { rewrite (slice_dim1_eq _ _ _ _ _ _ Hs) in Hpos. discriminate. }
  rewrite !bind_ret.
  pose proof (wf_slice_dim1 _ _ _ _ _ _ _ Hwf Hs (Nat.le_refl n) Hpos) as Hwpos.
  assert (shape pos = [b; (g * g)%nat; e]) as Hspos'.
  { rewrite (slice_dim1_eq _ _ _ _ _ _ Hs) in Hpos. inversion Hpos. simpl.
    by replace (n - a)%nat with (g * g)%nat by lia. }
  assert (reshape_infer pos g g e = inr (mkTensor [b; g; g; e] (data pos))) as Hr1.
  { unfold reshape_infer. rewrite Hspos'. simpl.
    rewrite decide_False by nia.
    replace (b * (g * g * (e * 1)))%nat with (b * (g * g * e))%nat by lia.
    rewrite Nat.Div0.mod_mul, decide_True by done.
    rewrite Nat.div_mul by nia. done. }
  rewrite Hr1, bind_ret.
  destruct (permute_round_trip (mkTensor [b; g; g; e] (data pos)) b g g e)
    as (p1 & Hp1 & Hsp1 & Hwp1 & Hback); [done| |done|nia|].
  { unfold wf_tensor in *. rewrite Hspos' in Hwpos. simpl in *. lia. }
  rewrite Hp1, bind_ret.
  exists extra, pos, p1. by repeat split.
Qed.


(** The loader does build a new positional embedding when the checkpoint
    holds the model's extra tokens followed by a square grid and the kernel
    resamples that grid to the model's grid size. *)
Lemma interpolate_pos_embed_returns (model : Model scalar)
    (checkpoint_model : gmap string (Tensor scalar))
    (pos_embed_checkpoint : Tensor scalar) (b n e model_tokens : nat) (s new_size : Z) :
  (∀ t, shape t = [b; e; Z.to_nat s; Z.to_nat s] → wf_tensor t →
        ∃ t', interpolate t (Z.to_nat new_size) (Z.to_nat new_size) = inr t'
              ∧ shape t' = [b; e; Z.to_nat new_size; Z.to_nat new_size]) →
  checkpoint_model !! "pos_embed" = Some pos_embed_checkpoint →
  shape pos_embed_checkpoint = [b; n; e] →
  wf_tensor pos_embed_checkpoint →
  shape_last2 (value (pos_embed model)) = inr model_tokens →
  (0 ≤ Z.of_nat model_tokens - patch_embed_num_patches model)%Z →
  (0 < s)%Z → (0 < e)%nat →
  (Z.of_nat n - (Z.of_nat model_tokens - patch_embed_num_patches model) = s * s)%Z →
  (0 ≤ patch_embed_num_patches model)%Z →
  Z.sqrt (patch_embed_num_patches model) = new_size →
  ∃ new_pos_embed, interpolate_pos_embed model checkpoint_model = inr new_pos_embed.
Proof.
  intros Hkernel Hpe Hs Hwf Hmt Hnx Hspos He Hgrid Hnp Hnew.
  assert (int_sqrt (patch_embed_num_patches model) = inr new_size) as Hsqrt.
  { unfold int_sqrt. rewrite decide_False by lia. by rewrite Hnew. }
  destruct (interpolate_pos_embed_grid model checkpoint_model pos_embed_checkpoint
              b n e model_tokens s new_size Hpe Hs Hwf Hmt Hnx Hspos He Hgrid Hsqrt)
    as (extra & pos & grid & Hextra & Hpos & Hspos' & Hsgrid & Hwgrid & Hback & ->).
  destruct (Hkernel grid Hsgrid Hwgrid) as (y & -> & Hsy). rewrite bind_ret.
  unfold permute_0231 at 1. rewrite Hsy. rewrite bind_ret.
  unfold flatten_1_2. cbn [shape data bind].
  rewrite (slice_dim1_eq _ _ _ _ _ _ Hs) in Hextra. inversion Hextra; subst extra.
  unfold cat_dim1. cbn [shape data]. rewrite decide_True by done.
  by eexists.
Qed.




End Properties.

(** * The concrete instance *)

Lemma demo_interpolate_wf (t : Tensor Z) (h w : nat) (t' : Tensor Z) :
  wf_tensor t → demo_interpolate t h w = inr t' → wf_tensor t'.
Proof.
  unfold demo_interpolate. intros Hwf.
  destruct (shape t) as [|b [|c [|h0 [|w0 [|]]]]] eqn:Hs; try discriminate.
  destruct (decide (h0 = h ∧ w0 = w)); [by intros [= <-]|].
  destruct (decide _) as [|Hne]; [discriminate|].
  intros [= <-]. unfold wf_tensor. simpl.
  rewrite length_gather; [lia|]. intros Hnil. destruct Hne. auto.
Qed.


(** ** Selective gradient controller on the instance *)

(** C1.  On the three-block instance with target set [1] and the default
    [freeze = True], the controller turns gradient tracking off on the two
    parameters whose names contain ["blocks.1"] and on for every other
    parameter: the opposite of tracking being enabled exactly on the
    parameters of the target blocks.  The student the orchestrator hands
    to the training loop is in the same state: its replaced block 1 is
    frozen and the rest of it is trainable. *)
Theorem set_requires_grad_targets_frozen :
  grad_flags (set_requires_grad (demo_model 3) [1%Z] default_freeze)
  = [("pos_embed", true); ("cls_token", true); ("patch_embed.proj.weight", true);
     ("blocks.0.attn.qkv.weight", true); ("blocks.0.mlp.fc1.weight", true);
     ("blocks.1.attn.qkv.weight", false); ("blocks.1.mlp.fc1.weight", false);
     ("blocks.2.attn.qkv.weight", true); ("blocks.2.mlp.fc1.weight", true);
     ("norm.weight", true); ("norm.bias", true);
     ("head.weight", true); ("head.bias", true)]
  ∧ contains "blocks.1" "blocks.1.attn.qkv.weight" = true
  ∧ contains "blocks.1" "cls_token" = false
  ∧ grad_flags demo_student
    = [("pos_embed", true); ("cls_token", true); ("patch_embed.proj.weight", true);
       ("blocks.0.attn.qkv.weight", true); ("blocks.0.mlp.fc1.weight", true);
       ("blocks.1.token_mixing.fc1.weight", false);
       ("blocks.1.channel_mixing.fc1.weight", false);
       ("blocks.12.attn.qkv.weight", false); ("blocks.12.mlp.fc1.weight", false);
       ("blocks.13.attn.qkv.weight", false); ("blocks.13.mlp.fc1.weight", false)].
Proof. by vm_compute. Qed.

(** C2.  With an empty target set and the default [freeze = True] the
    controller turns gradient tracking on for every parameter, and the
    teacher the orchestrator hands to the training loop after that call has
    tracking enabled on all its parameters: the call does not freeze it. *)
Theorem set_requires_grad_no_targets_enables_all :
  grad_flags (set_requires_grad (demo_model 3) [] default_freeze)
  = [("pos_embed", true); ("cls_token", true); ("patch_embed.proj.weight", true);
     ("blocks.0.attn.qkv.weight", true); ("blocks.0.mlp.fc1.weight", true);
     ("blocks.1.attn.qkv.weight", true); ("blocks.1.mlp.fc1.weight", true);
     ("blocks.2.attn.qkv.weight", true); ("blocks.2.mlp.fc1.weight", true);
     ("norm.weight", true); ("norm.bias", true);
     ("head.weight", true); ("head.bias", true)]
  ∧ training_call (main (collab := demo) demo_train_args).1
    = Some (demo_student, demo_teacher, demo_n_parameters)
  ∧ forallb snd (grad_flags demo_teacher) = true.
Proof. by vm_compute. Qed.

(** ** Depth truncator on the instance *)

Lemma cut_extra_layers_spec_witness :
  (1 < 12)%Z
  ∧ ∃ model',
      cut_extra_layers (demo_model 14) 1 12 = inr model'
      ∧ (∀ p : nat, (1 < Z.of_nat p < 12)%Z → blocks model' !! p = Some EmptyBlock)
      ∧ norm model' = Identity ∧ fc_norm model' = Identity
      ∧ head_drop model' = Identity ∧ head model' = Identity.
Proof.
  split; [lia|].
  destruct (cut_extra_layers_spec (demo_model 14) 1 12) as (Hpost & Hreturns & _); [lia|].
  destruct Hreturns as [model' Hrun]; [simpl; lia|].
  exists model'. split; [exact Hrun|].
  destruct (Hpost model' Hrun) as (Hblocks & Hnorm & Hfc & Hdrop & Hhead & _).
  repeat split; assumption.
Defined.

(** C10, as stated, fails: on the fourteen-block instance with the
    replacement index -2 the orchestrator reaches the training loop with a
    student whose block at position 13 has been replaced by a pass-through
    block, since the truncation loop starts at index -1, which denotes the
    last block. *)
Lemma main_truncation_wraps_negative_index :
  (12 < length (blocks (demo_model 14)))%nat
  ∧ create_model (Collaborators := demo) "vit_deep_demo" 3 224 = inr (demo_model 14)
  ∧ is_empty_block (blocks (demo_model 14) !! 13%nat) = false
  ∧ (∃ teacher n,
       training_call (main (collab := demo) demo_negative_args).1
       = Some (demo_negative_student, teacher, n))
  ∧ is_empty_block (blocks demo_negative_student !! 13%nat) = true.
Proof.
  split; [simpl; lia|].
  split; [by vm_compute|].
  split; [by vm_compute|].
  split; [|by vm_compute].
  eexists _, _. by vm_compute.
Qed.

Lemma main_truncates_at_default_depth_witness :
  TrainModel demo_student demo_teacher demo_n_parameters
    ∈ (main (collab := demo) demo_train_args).1
  ∧ ∃ repl_blocks max_index model_deit model_repl model model_ori cut cut_ori,
      replace demo_train_args = Some repl_blocks
      ∧ py_max repl_blocks = inr max_index
      ∧ replace_att2mixer (collab := demo) model_deit repl_blocks (d_model demo_train_args)
        = inr model_repl
      ∧ load_weight (collab := demo) model_repl (d_weight demo_train_args) = inr model
      ∧ load_weight (collab := demo) model_deit (d_weight demo_train_args) = inr model_ori
      ∧ cut_extra_layers model max_index 12 = inr cut
      ∧ cut_extra_layers model_ori max_index 12 = inr cut_ori
      ∧ demo_student = set_requires_grad cut repl_blocks true
      ∧ demo_teacher = set_requires_grad cut_ori [] true
      ∧ ((-1 ≤ max_index)%Z →
         ∀ p : nat, (12 ≤ p)%nat →
           blocks cut !! p = blocks model !! p
           ∧ blocks cut_ori !! p = blocks model_ori !! p
           ∧ (blocks demo_student !! p = Some EmptyBlock → blocks model !! p = Some EmptyBlock)
           ∧ (blocks demo_teacher !! p = Some EmptyBlock
              → blocks model_ori !! p = Some EmptyBlock)).
Proof.
  assert (TrainModel demo_student demo_teacher demo_n_parameters
            ∈ (main (collab := demo) demo_train_args).1) as Hin.
  { vm_compute.
    repeat (first [apply list_elem_of_here | apply list_elem_of_further]). }
  split; [exact Hin|].
  exact (main_truncates_at_default_depth demo_train_args demo_student demo_teacher
           demo_n_parameters Hin).
Defined.

(** ** Block replacer on the instance *)

Lemma replace_att2mixer_positional_witness :
  ∃ model',
    replace_att2mixer (collab := demo) (demo_model 3) [1%Z] "vit_small_demo" = inr model'
    ∧ (∀ i, i ∈ [1%Z] →
            blocks model' !! Z.to_nat i
            = Some (MixerBlock 4 3 2 5 (demo_mixer_params 4 3 2 5)))
    ∧ (∀ p : nat, Z.of_nat p ∉ [1%Z] → blocks model' !! p = blocks (demo_model 3) !! p)
    ∧ length (blocks model') = length (blocks (demo_model 3))
    ∧ pos_embed model' = pos_embed (demo_model 3)
    ∧ patch_embed_num_patches model' = patch_embed_num_patches (demo_model 3)
    ∧ stem model' = stem (demo_model 3)
    ∧ norm model' = norm (demo_model 3) ∧ fc_norm model' = fc_norm (demo_model 3)
    ∧ head_drop model' = head_drop (demo_model 3) ∧ head model' = head (demo_model 3).
Proof.
  apply (replace_att2mixer_positional (collab := demo) (demo_model 3) [1%Z]
           "vit_small_demo" demo_entry 4 3 2 5 (demo_mixer_params 4 3 2 5)).
  - apply Forall_cons. split; [simpl; lia | apply Forall_nil_2].
  - by vm_compute.
  - by vm_compute.
  - by vm_compute.
  - by vm_compute.
  - by vm_compute.
  - reflexivity.
Defined.

(** C5, as stated, fails on two inputs: with an empty index list the
    replacer returns the model although the name has no table entry, and
    the index -1 (outside [0, depth)) is accepted and denotes the last
    block. *)
Lemma replace_att2mixer_accepts :
  demo_table !! "vit_unknown" = None
  ∧ replace_att2mixer (collab := demo) (demo_model 3) [] "vit_unknown" = inr (demo_model 3)
  ∧ ¬ (0 ≤ -1 < Z.of_nat (length (blocks (demo_model 3))))%Z
  ∧ ∃ model',
      replace_att2mixer (collab := demo) (demo_model 3) [(-1)%Z] "vit_small_demo"
      = inr model'
      ∧ blocks model' !! 2%nat = Some (MixerBlock 4 3 2 5 (demo_mixer_params 4 3 2 5)).
Proof.
  split; [by vm_compute|].
  split; [reflexivity|].
  split; [lia|].
  eexists. split; by vm_compute.
Qed.

Lemma replace_att2mixer_failure_witness :
  raises (replace_att2mixer (collab := demo) (demo_model 3) [1%Z] "vit_unknown")
  ∧ raises (replace_att2mixer (collab := demo) (demo_model 3) [3%Z] "vit_small_demo").
Proof.
  split.
  - apply (replace_att2mixer_failure (collab := demo)). left.
    split; [discriminate | by vm_compute].
  - apply (replace_att2mixer_failure (collab := demo)). right.
    apply Exists_cons_hd. simpl. lia.
Defined.

(** ** Orchestrator on the instance *)



(** ** Checkpoint loader on the instance *)

(** A 3x3 checkpoint grid resampled onto the 2x2 grid of the model: the
    class-token row of the result is the class-token row of the
    checkpoint. *)
Lemma interpolate_pos_embed_extra_tokens_witness :
  interpolate_pos_embed (collab := demo) (demo_model 3) demo_state_3x3
  = inr (mkTensor [1; 5; 2]%nat [500; 501; 502; 503; 504; 505; 508; 509; 510; 511]%Z)
  ∧ ∃ extra_tokens,
      slice_dim1 (mkTensor [1; 5; 2]%nat
                    [500; 501; 502; 503; 504; 505; 508; 509; 510; 511]%Z) 0 1
      = inr extra_tokens
      ∧ slice_dim1 (filled [1; 10; 2] 500) 0 1 = inr extra_tokens.
Proof.
  split; [by vm_compute|].
  apply (interpolate_pos_embed_extra_tokens (collab := demo) (demo_model 3)
           demo_state_3x3 (filled [1; 10; 2] 500)
           (mkTensor [1; 5; 2]%nat [500; 501; 502; 503; 504; 505; 508; 509; 510; 511]%Z)
           5).
  - exact demo_interpolate_wf.
  - by vm_compute.
  - reflexivity.
  - reflexivity.
  - by vm_compute.
Defined.


Lemma load_weight_missing_head_key_witness :
  ∃ k', k' ∈ head_keys
        ∧ state_dict (demo_model 3) !! k' = None
        ∧ load_weight (collab := demo) (demo_model 3) "demo_distilled.pth"
          = inl (KeyError k').
Proof.
  apply (load_weight_missing_head_key (collab := demo) (demo_model 3) "demo_distilled.pth"
           demo_checkpoint_distilled demo_state_distilled "head_dist.weight").
  - by vm_compute.
  - by vm_compute.
  - do 2 apply list_elem_of_further. apply list_elem_of_here.
  - exists (filled [3; 2] 900). by vm_compute.
  - by vm_compute.
Defined.

(** * Further properties of the code *)

Section MoreProperties.
Context {scalar : Type} {collab : Collaborators scalar}.

Local Abbreviation Params := (list (string * Param scalar)).

(** ** Strings *)

Lemma prefix_append_r (a b d : string) :
  String.prefix a b = true → String.prefix a (b +:+ d) = true.
Proof.
  revert b. induction a as [|c a IH]; intros b Hp; [by destruct (b +:+ d)|].
  destruct b as [|c' b]; simpl in *; [discriminate|].
  destruct (ascii_dec c c'); [by apply IH | discriminate].
Qed.

Lemma prefix_append_common (c a b : string) :
  String.prefix (c +:+ a) (c +:+ b) = String.prefix a b.
Proof.
  induction c as [|x c IH]; simpl; [done|].
  destruct (ascii_dec x x); [exact IH | done].
Qed.

Lemma contains_prefix (sub s : string) :
  String.prefix sub s = true → contains sub s = true.
Proof. intros Hp. destruct s; cbn [contains]; by rewrite Hp. Qed.

(** ** Selective gradient controller *)

(** X1.  For either value of [freeze], a parameter whose name contains
    the name of a target block ends with [requires_grad = not freeze], and
    a parameter whose name contains none ends with [requires_grad =
    freeze]; with [freeze = False] tracking is therefore enabled exactly on
    the parameters that match a target. *)
Theorem set_requires_grad_law (m : Model scalar) (targets : list Z) (freeze : bool)
    (name : string) (p : Param scalar) :
  (name, p) ∈ named_parameters (set_requires_grad m targets freeze) →
  ((∃ i, i ∈ targets ∧ contains ("blocks." +:+ pretty i) name = true) →
   requires_grad p = negb freeze)
  ∧ ((∀ i, i ∈ targets → contains ("blocks." +:+ pretty i) name = false) →
     requires_grad p = freeze)
  ∧ (freeze = false →
     (requires_grad p = true
      ↔ ∃ i, i ∈ targets ∧ contains ("blocks." +:+ pretty i) name = true)).
Proof.
  intros Hin. rewrite (set_requires_grad_flag _ _ _ _ _ Hin).
  unfold grad_flag, target_names.
  destruct (existsb _ _) eqn:Hex.
  - apply existsb_exists in Hex as (t & Ht & Hc).
    apply in_map_iff in Ht as (i & <- & Hi). apply list_elem_of_In in Hi.
    split; [done|]. split.
    + intros Hall. rewrite (Hall i Hi) in Hc. discriminate.
    + intros ->. simpl. split; [eauto | done].
  - assert (∀ i, i ∈ targets → contains ("blocks." +:+ pretty i) name = false) as Hnone.
    { intros i Hi. destruct (contains _ name) eqn:Hc; [|done].
      assert (existsb (λ target, contains target name)
                (map (λ target, "blocks." +:+ pretty target) targets) = true) as Hex'.
      { apply existsb_exists. eexists. split; [|exact Hc].
        apply in_map_iff. exists i. split; [done|]. by apply list_elem_of_In. }
      congruence. }
    split; [|split; [done|]].
    + intros (i & Hi & Hc). rewrite (Hnone i Hi) in Hc. discriminate.
    + intros ->. split; [discriminate|].
      intros (i & Hi & Hc). rewrite (Hnone i Hi) in Hc. discriminate.
Qed.

(** X2.  The controller writes flags only: the names and the tensors of
    the parameters, hence the state dict, the number of blocks and the
    patch count are those of the model it was given. *)
Theorem set_requires_grad_only_flags (m : Model scalar) (targets : list Z) (freeze : bool) :
  map (λ np, (np.1, value np.2)) (named_parameters (set_requires_grad m targets freeze))
  = map (λ np, (np.1, value np.2)) (named_parameters m)
  ∧ state_dict (set_requires_grad m targets freeze) = state_dict m
  ∧ length (blocks (set_requires_grad m targets freeze)) = length (blocks m)
  ∧ patch_embed_num_patches (set_requires_grad m targets freeze)
    = patch_embed_num_patches m.
Proof.
  assert (map (λ np, (np.1, value np.2))
              (named_parameters (set_requires_grad m targets freeze))
          = map (λ np, (np.1, value np.2)) (named_parameters m)) as Hvals.
  { unfold set_requires_grad. rewrite named_parameters_map_model, map_map.
    apply map_ext. by intros [n p]. }
  split; [exact Hvals|]. split; [|split].
  - unfold state_dict. by rewrite Hvals.
  - unfold set_requires_grad, map_model. simpl. apply length_imap.
  - reflexivity.
Qed.

Lemma map_params_compose (f g : string → Param scalar → Param scalar) pre (ps : Params) :
  map_params f pre (map_params g pre ps) = map_params (λ n p, f n (g n p)) pre ps.
Proof. unfold map_params. rewrite map_map. apply map_ext. by intros [n p]. Qed.

Lemma map_params_ext (f g : string → Param scalar → Param scalar) pre (ps : Params) :
  (∀ n p, f n p = g n p) → map_params f pre ps = map_params g pre ps.
Proof. intros Hfg. unfold map_params. apply map_ext. intros [n p]. simpl. by rewrite Hfg. Qed.

Lemma map_model_compose (f g : string → Param scalar → Param scalar) (m : Model scalar) :
  map_model f (map_model g m) = map_model (λ n p, f n (g n p)) m.
Proof.
  unfold map_model. simpl. f_equal.
  - apply map_params_compose.
  - apply list_eq. intros i. rewrite !list_lookup_imap.
    destruct (blocks m !! i) as [b|]; [|done]. simpl. f_equal.
    destruct b; simpl; [| |done]; f_equal; apply map_params_compose.
  - destruct (norm m); simpl; [|done]. f_equal. apply map_params_compose.
  - destruct (fc_norm m); simpl; [|done]. f_equal. apply map_params_compose.
  - destruct (head_drop m); simpl; [|done]. f_equal. apply map_params_compose.
  - destruct (head m); simpl; [|done]. f_equal. apply map_params_compose.
Qed.

Lemma map_model_ext (f g : string → Param scalar → Param scalar) (m : Model scalar) :
  (∀ n p, f n p = g n p) → map_model f m = map_model g m.
Proof.
  intros Hfg. unfold map_model. f_equal.
  - apply Hfg.
  - by apply map_params_ext.
  - apply imap_ext. intros i b _.
    destruct b; simpl; [| |done]; f_equal; by apply map_params_ext.
  - destruct (norm m); simpl; [|done]. f_equal. by apply map_params_ext.
  - destruct (fc_norm m); simpl; [|done]. f_equal. by apply map_params_ext.
  - destruct (head_drop m); simpl; [|done]. f_equal. by apply map_params_ext.
  - destruct (head m); simpl; [|done]. f_equal. by apply map_params_ext.
Qed.

(** X3.  The controller overwrites every flag, so of two calls in a row
    only the second one counts. *)
Theorem set_requires_grad_last_call_wins (m : Model scalar) (targets targets' : list Z)
    (freeze freeze' : bool) :
  set_requires_grad (set_requires_grad m targets freeze) targets' freeze'
  = set_requires_grad m targets' freeze'.
Proof.
  unfold set_requires_grad. rewrite map_model_compose.
  apply map_model_ext. by intros n p.
Qed.

(** X4.  Target names are matched as substrings: when the decimal form
    of a target index [i] is a prefix of the decimal form of a block
    position [j], every parameter of block [j] is treated as a parameter
    of the target.  This holds for [j = i], and also makes target 1 catch
    the blocks 10 to 19. *)
Theorem set_requires_grad_prefix_collision (m : Model scalar) (targets : list Z)
    (freeze : bool) (i : Z) (j : nat) (n : string) (p : Param scalar) :
  i ∈ targets →
  String.prefix (pretty i) (pretty (Z.of_nat j)) = true →
  (block_prefix j +:+ n, p) ∈ named_parameters (set_requires_grad m targets freeze) →
  requires_grad p = negb freeze.
Proof.
  intros Hi Hpre Hin.
  rewrite (set_requires_grad_flag _ _ _ _ _ Hin).
  unfold grad_flag.
  assert (existsb (λ target, contains target (block_prefix j +:+ n)) (target_names targets)
          = true) as ->; [|done].
  apply existsb_exists. exists ("blocks." +:+ pretty i). split.
  - unfold target_names. apply in_map_iff. exists i. split; [done|].
    by apply list_elem_of_In.
  - apply contains_prefix.
    change (block_prefix j +:+ n)
      with ("blocks." +:+ ((pretty (Z.of_nat j) +:+ ".") +:+ n)).
    rewrite prefix_append_common. by do 2 apply prefix_append_r.
Qed.


(** ** Depth truncator *)





(** ** Block replacer *)

(** X7.  With a complete table entry and a constructor that succeeds,
    the replacer returns exactly when every index lies in [-depth, depth);
    the count of blocks never changes. *)
Theorem replace_att2mixer_returns_iff (model : Model scalar) (repl_blocks : list Z)
    (model_name : string) (entry : gmap string Z) (np thd cd chd : Z) (ps : Params) :
  param_dict !! model_name = Some entry →
  entry !! "num_patches" = Some np →
  entry !! "token_hid_dim" = Some thd →
  entry !! "channels_dim" = Some cd →
  entry !! "channels_hid_dim" = Some chd →
  mixer_block_init np thd cd chd = inr ps →
  ((∃ model', replace_att2mixer model repl_blocks model_name = inr model')
   ↔ Forall (λ i, - Z.of_nat (length (blocks model)) ≤ i
                  < Z.of_nat (length (blocks model)))%Z repl_blocks)
  ∧ (∀ model', replace_att2mixer model repl_blocks model_name = inr model' →
               length (blocks model') = length (blocks model)).
Proof.
  intros He Hnp Hthd Hcd Hchd Hps.
  rewrite (replace_att2mixer_run _ _ _ _ _ _ _ _ _ He Hnp Hthd Hcd Hchd Hps).
  split; [split|].
  - intros (model' & (bs & Hbs & _)%bind_inr).
    by eapply seq_setitems_inr_valid.
  - intros Hvalid.
    destruct (seq_setitems_ok repl_blocks (MixerBlock np thd cd chd ps) (blocks model) Hvalid)
      as (bs & -> & _). by eexists.
  - intros model' (bs & Hbs & Heq)%bind_inr. inversion Heq; subst model'. simpl.
    pose proof (seq_setitems_inr_valid _ _ _ _ Hbs) as Hvalid.
    destruct (seq_setitems_ok _ (MixerBlock np thd cd chd ps) _ Hvalid)
      as (bs' & Hrun & Hlen & _).
    congruence.
Qed.

(** X8.  The order of the indices and their repetition do not matter:
    two valid index lists with the same elements give the same model. *)
Theorem replace_att2mixer_order_irrelevant (model : Model scalar)
    (repl_blocks repl_blocks' : list Z)
    (model_name : string) (entry : gmap string Z) (np thd cd chd : Z) (ps : Params) :
  param_dict !! model_name = Some entry →
  entry !! "num_patches" = Some np →
  entry !! "token_hid_dim" = Some thd →
  entry !! "channels_dim" = Some cd →
  entry !! "channels_hid_dim" = Some chd →
  mixer_block_init np thd cd chd = inr ps →
  Forall (λ i, - Z.of_nat (length (blocks model)) ≤ i
               < Z.of_nat (length (blocks model)))%Z repl_blocks →
  (∀ i, i ∈ repl_blocks ↔ i ∈ repl_blocks') →
  replace_att2mixer model repl_blocks model_name
  = replace_att2mixer model repl_blocks' model_name.
Proof.
  intros He Hnp Hthd Hcd Hchd Hps Hvalid Hsame.
  rewrite !(replace_att2mixer_run _ _ _ _ _ _ _ _ _ He Hnp Hthd Hcd Hchd Hps).
  assert (Forall (λ i, - Z.of_nat (length (blocks model)) ≤ i
                       < Z.of_nat (length (blocks model)))%Z repl_blocks') as Hvalid'.
  { rewrite Forall_forall in Hvalid. apply Forall_forall.
    intros i Hi. apply Hvalid. by apply Hsame. }
  destruct (seq_setitems_ok _ (MixerBlock np thd cd chd ps) _ Hvalid)
    as (bs & -> & Hlen & Hlook).
  destruct (seq_setitems_ok _ (MixerBlock np thd cd chd ps) _ Hvalid')
    as (bs' & -> & Hlen' & Hlook').
  simpl. do 2 f_equal. apply list_eq. intros p.
  rewrite Hlook, Hlook'.
  destruct (decide (Exists _ repl_blocks)) as [Hex|Hnex].
  - rewrite decide_True; [done|].
    apply Exists_exists in Hex as (i & Hi & Hp). apply Exists_exists.
    exists i. split; [by apply Hsame | done].
  - rewrite decide_False; [done|].
    intros (i & Hi & Hp)%Exists_exists. apply Hnex, Exists_exists.
    exists i. split; [by apply Hsame | done].
Qed.

(** X9.  A table entry that lacks one of the four hyperparameters makes
    the replacer raise [KeyError] on the first missing key, in the order
    the constructor's arguments are written, before any block is built or
    assigned. *)
Theorem replace_att2mixer_missing_hyperparameter (model : Model scalar) (i : Z)
    (rest : list Z) (model_name : string) (entry : gmap string Z)
    (found : list string) (key : string) (later : list string) :
  param_dict !! model_name = Some entry →
  ["num_patches"; "token_hid_dim"; "channels_dim"; "channels_hid_dim"]
  = (found ++ key :: later)%list →
  Forall (λ k, is_Some (entry !! k)) found →
  entry !! key = None →
  replace_att2mixer model (i :: rest) model_name = inl (KeyError key).
Proof.
  intros He Hkeys Hfound Hkey. simpl.
  assert (∀ k, entry !! k = None → param_dict_entry model_name k = inl (KeyError k)) as Hmiss.
  { intros k Hk. unfold param_dict_entry, getitem. rewrite He. simpl. by rewrite Hk. }
  assert (∀ k, is_Some (entry !! k) → ∃ v, param_dict_entry model_name k = inr v) as Hhit.
  { intros k [v Hv]. exists v. by apply (param_dict_entry_ok _ _ entry). }
  destruct found as [|k1 [|k2 [|k3 [|k4 found]]]]; simpl in Hkeys;
    inversion Hkeys; subst; clear Hkeys.
  - by rewrite (Hmiss _ Hkey).
  - apply Forall_cons in Hfound as [(v1 & ->)%Hhit _]. simpl.
    by rewrite (Hmiss _ Hkey).
  - apply Forall_cons in Hfound as [(v1 & ->)%Hhit Hfound].
    apply Forall_cons in Hfound as [(v2 & ->)%Hhit _]. simpl.
    by rewrite (Hmiss _ Hkey).
  - apply Forall_cons in Hfound as [(v1 & ->)%Hhit Hfound].
    apply Forall_cons in Hfound as [(v2 & ->)%Hhit Hfound].
    apply Forall_cons in Hfound as [(v3 & ->)%Hhit _]. simpl.
    by rewrite (Hmiss _ Hkey).
  - by destruct found.
Qed.


(** ** Checkpoint loader *)

(** What the loop over the head keys leaves in the checkpoint dictionary
    when it returns. *)
Lemma drop_mismatched_heads_lookup (state : gmap string (Tensor scalar))
    (keys : list string) (checkpoint_model kept : gmap string (Tensor scalar)) :
  drop_mismatched_heads state checkpoint_model keys = inr kept →
  ∀ k, kept !! k
       = if bool_decide (k ∈ keys)
            && match checkpoint_model !! k, state !! k with
               | Some t, Some s => bool_decide (shape t ≠ shape s)
               | _, _ => false
               end
         then None else checkpoint_model !! k.
Proof.
  revert checkpoint_model.
  induction keys as [|k0 keys IH]; intros checkpoint_model Hrun k.
  - simpl in Hrun. inversion Hrun; subst kept.
    rewrite bool_decide_eq_false_2; [done | apply not_elem_of_nil].
  - simpl in Hrun.
    destruct (checkpoint_model !! k0) as [t0|] eqn:Hk0.
    + apply bind_inr in Hrun as (s0 & Hs0 & Hrun).
      unfold getitem in Hs0. destruct (state !! k0) as [s0'|] eqn:Hst0; [|discriminate].
      inversion Hs0; subst s0'. clear Hs0.
      destruct (decide (shape t0 ≠ shape s0)) as [Hne|Heq].
      * rewrite (IH _ Hrun k). destruct (decide (k = k0)) as [->|Hk].
        -- rewrite lookup_delete_eq, Hk0, Hst0. simpl.
           rewrite (bool_decide_eq_true_2 (k0 ∈ k0 :: keys)) by apply list_elem_of_here.
           rewrite (bool_decide_eq_true_2 _ Hne). simpl.
           by rewrite andb_false_r.
        -- rewrite lookup_delete_ne by done.
           rewrite (bool_decide_ext (k ∈ k0 :: keys) (k ∈ keys)); [done|].
           rewrite elem_of_cons. split; [by intros [?|?] | by right].
      * rewrite (IH _ Hrun k). destruct (decide (k = k0)) as [->|Hk].
        -- rewrite Hk0, Hst0. rewrite (bool_decide_eq_false_2 _ Heq).
           by rewrite !andb_false_r.
        -- rewrite (bool_decide_ext (k ∈ k0 :: keys) (k ∈ keys)); [done|].
           rewrite elem_of_cons. split; [by intros [?|?] | by right].
    + rewrite (IH _ Hrun k). destruct (decide (k = k0)) as [->|Hk].
      * rewrite Hk0. by rewrite !andb_false_r.
      * rewrite (bool_decide_ext (k ∈ k0 :: keys) (k ∈ keys)); [done|].
        rewrite elem_of_cons. split; [by intros [?|?] | by right].
Qed.

(** The loop returns when the model has a parameter for every key of the
    list that the checkpoint has. *)
Lemma drop_mismatched_heads_returns (state : gmap string (Tensor scalar))
    (keys : list string) (checkpoint_model : gmap string (Tensor scalar)) :
  (∀ k, k ∈ keys → is_Some (checkpoint_model !! k) → is_Some (state !! k)) →
  ∃ kept, drop_mismatched_heads state checkpoint_model keys = inr kept.
Proof.
  revert checkpoint_model.
  induction keys as [|k0 keys IH]; intros checkpoint_model Hhas; [by eexists|].
  simpl. destruct (checkpoint_model !! k0) as [t0|] eqn:Hk0.
  - destruct (Hhas k0) as [s0 Hs0]; [apply list_elem_of_here | by eexists |].
    unfold getitem. rewrite Hs0. simpl.
    destruct (decide (shape t0 ≠ shape s0)).
    + apply IH. intros k Hk [t Ht]. apply Hhas; [by apply list_elem_of_further|].
      destruct (decide (k = k0)) as [->|Hne].
      * by rewrite lookup_delete_eq in Ht.
      * rewrite lookup_delete_ne in Ht by done. by eexists.
    + apply IH. intros k Hk. apply Hhas. by apply list_elem_of_further.
  - apply IH. intros k Hk. apply Hhas. by apply list_elem_of_further.
Qed.

(** X10.  The head-key loop is shape tolerant: when the model has a
    parameter for every head key of the checkpoint, the loop returns a
    dictionary in which a head tensor whose shape equals the model's is
    kept, one whose shape differs is gone, and every other entry is the
    checkpoint's. *)
Theorem drop_mismatched_heads_spec (state checkpoint_model : gmap string (Tensor scalar)) :
  (∀ k, k ∈ head_keys → is_Some (checkpoint_model !! k) → is_Some (state !! k)) →
  ∃ kept,
    drop_mismatched_heads state checkpoint_model head_keys = inr kept
    ∧ (∀ k, k ∉ head_keys → kept !! k = checkpoint_model !! k)
    ∧ (∀ k t s, k ∈ head_keys → checkpoint_model !! k = Some t → state !! k = Some s →
                shape t = shape s → kept !! k = Some t)
    ∧ (∀ k t s, k ∈ head_keys → checkpoint_model !! k = Some t → state !! k = Some s →
                shape t ≠ shape s → kept !! k = None).
Proof.
  intros Hhas.
  destruct (drop_mismatched_heads_returns _ _ _ Hhas) as [kept Hrun].
  pose proof (drop_mismatched_heads_lookup _ _ _ _ Hrun) as Hlook.
  exists kept. split; [done|]. split; [|split].
  - intros k Hk. rewrite Hlook. by rewrite bool_decide_eq_false_2.
  - intros k t s Hk Ht Hs Heq. rewrite Hlook, Ht, Hs.
    rewrite (bool_decide_eq_false_2 (shape t ≠ shape s)) by (intros ?; done).
    by rewrite andb_false_r.
  - intros k t s Hk Ht Hs Hne. rewrite Hlook, Ht, Hs.
    by rewrite !bool_decide_eq_true_2.
Qed.

(** X11.  A checkpoint without a positional embedding is refused: when
    the head-key loop passes, the loader raises [KeyError] on
    ["pos_embed"] and the model is not loaded. *)
Theorem load_weight_missing_pos_embed (model : Model scalar) (weight : string)
    (checkpoint : gmap string (gmap string (Tensor scalar)))
    (checkpoint_model : gmap string (Tensor scalar)) :
  (if startswith weight "https" then load_state_dict_from_url weight
   else torch_load weight) = inr checkpoint →
  checkpoint !! "model" = Some checkpoint_model →
  (∀ k, k ∈ head_keys → is_Some (checkpoint_model !! k) →
        is_Some (state_dict model !! k)) →
  checkpoint_model !! "pos_embed" = None →
  load_weight model weight = inl (KeyError "pos_embed").
Proof.
  intros Hfetch Hmodel Hhas Hpe.
  destruct (drop_mismatched_heads_returns _ _ _ Hhas) as [kept Hrun].
  pose proof (drop_mismatched_heads_lookup _ _ _ _ Hrun "pos_embed") as Hlook.
  rewrite Hpe, andb_false_r in Hlook.
  unfold load_weight. rewrite Hfetch, bind_ret.
  unfold getitem at 1. rewrite Hmodel, bind_ret.
  unfold prepare_checkpoint. rewrite Hrun, bind_ret.
  unfold interpolate_pos_embed, getitem. by rewrite Hlook.
Qed.


Lemma load_state_dict_inr (m m' : Model scalar) (d : gmap string (Tensor scalar)) :
  load_state_dict m d = inr m' →
  (∀ np, np ∈ named_parameters m → size_mismatch d np = false)
  ∧ m' = map_model (λ name p, match d !! name with
                              | Some t => mkParam t (requires_grad p)
                              | None => p
                              end) m.
Proof.
  unfold load_state_dict. destruct (existsb _ _) eqn:Hex; [discriminate|].
  intros Heq. inversion Heq. split; [|done].
  intros np Hnp. destruct (size_mismatch d np) eqn:Hm; [|done].
  assert (existsb (size_mismatch d) (named_parameters m) = true) as Hex'.
  { apply existsb_exists. exists np. split; [by apply list_elem_of_In | done]. }
  congruence.
Qed.

Lemma load_weight_inr (model model' : Model scalar) (weight : string) :
  load_weight model weight = inr model' →
  ∃ checkpoint checkpoint_model prepared,
    (if startswith weight "https" then load_state_dict_from_url weight
     else torch_load weight) = inr checkpoint
    ∧ checkpoint !! "model" = Some checkpoint_model
    ∧ prepare_checkpoint model checkpoint_model = inr prepared
    ∧ load_state_dict model prepared = inr model'.
Proof.
  unfold load_weight. intros (checkpoint & Hfetch & Hrun)%bind_inr.
  apply bind_inr in Hrun as (checkpoint_model & Hmodel & Hrun).
  apply bind_inr in Hrun as (prepared & Hprep & Hload).
  exists checkpoint, checkpoint_model, prepared. repeat split; try done.
  unfold getitem in Hmodel. destruct (checkpoint !! "model"); [|discriminate].
  by inversion Hmodel.
Qed.

Lemma blocks_map_model (f : string → Param scalar → Param scalar) (m : Model scalar)
    (p : nat) :
  blocks (map_model f m) !! p = map_block f (block_prefix p) <$> blocks m !! p.
Proof.
  unfold map_model. simpl.
  exact (list_lookup_imap (λ i b, map_block f (block_prefix i) b) (blocks m) p).
Qed.

(** X12.  Loading a checkpoint changes tensors only: the model that
    [load_weight] returns has the same parameter names with the same
    shapes and the same gradient flags, the same number of blocks with
    replacement and identity blocks at the same positions, and the same
    patch count. *)
Theorem load_weight_keeps_structure (model model' : Model scalar) (weight : string) :
  load_weight model weight = inr model' →
  map (λ np, (np.1, shape (value np.2), requires_grad np.2)) (named_parameters model')
  = map (λ np, (np.1, shape (value np.2), requires_grad np.2)) (named_parameters model)
  ∧ length (blocks model') = length (blocks model)
  ∧ patch_embed_num_patches model' = patch_embed_num_patches model
  ∧ (∀ p : nat, blocks model' !! p = Some EmptyBlock ↔ blocks model !! p = Some EmptyBlock)
  ∧ (∀ (p : nat) np thd cd chd,
       (∃ ps, blocks model' !! p = Some (MixerBlock np thd cd chd ps))
       ↔ (∃ ps, blocks model !! p = Some (MixerBlock np thd cd chd ps))).
Proof.
  intros (checkpoint & checkpoint_model & prepared & _ & _ & _ & Hload)%load_weight_inr.
  apply load_state_dict_inr in Hload as [Hsizes ->].
  split; [|split; [|split; [|split]]].
  - rewrite named_parameters_map_model, map_map. apply map_ext_in.
    intros [n p] Hin%list_elem_of_In. simpl.
    specialize (Hsizes _ Hin). unfold size_mismatch in Hsizes. simpl in Hsizes.
    destruct (prepared !! n) as [t|]; [|done]. simpl.
    apply bool_decide_eq_false in Hsizes.
    destruct (decide (shape t = shape (value p))) as [->|Hne]; [done|].
    by destruct Hsizes.
  - unfold map_model. simpl. apply length_imap.
  - reflexivity.
  - intros p. rewrite blocks_map_model.
    destruct (blocks model !! p) as [[| |]|]; simpl; split; intros Heq;
      by inversion Heq.
  - intros p np thd cd chd. rewrite blocks_map_model.
    destruct (blocks model !! p) as [[| |]|]; simpl; split; intros [ps' Heq];
      inversion Heq; by eexists.
Qed.

Lemma list_to_map_values {X Y : Type} (h : string → X → Y) (l : list (string * X))
    (k : string) :
  (list_to_map (map (λ np, (np.1, h np.1 np.2)) l) : gmap string Y) !! k
  = h k <$> ((list_to_map l : gmap string X) !! k).
Proof.
  induction l as [|[n x] l IH]; simpl; [by rewrite !lookup_empty|].
  destruct (decide (n = k)) as [->|Hne].
  - by rewrite !lookup_insert_eq.
  - by rewrite !lookup_insert_ne.
Qed.

Lemma state_dict_map_model (f : string → Param scalar → Param scalar) (m : Model scalar)
    (k : string) :
  state_dict (map_model f m) !! k
  = (λ p, value (f k p))
      <$> ((list_to_map (named_parameters m) : gmap string (Param scalar)) !! k).
Proof.
  unfold state_dict. rewrite named_parameters_map_model, map_map.
  exact (list_to_map_values (λ n p, value (f n p)) (named_parameters m) k).
Qed.

Lemma state_dict_lookup (m : Model scalar) (k : string) :
  state_dict m !! k
  = value <$> ((list_to_map (named_parameters m) : gmap string (Param scalar)) !! k).
Proof.
  unfold state_dict.
  exact (list_to_map_values (λ _ p, value p) (named_parameters m) k).
Qed.

(** X13.  Partial-match loading: in the model [load_weight] returns,
    every parameter other than the positional embedding holds the
    checkpoint's tensor of its name when the checkpoint has one, and keeps
    its own tensor when the checkpoint has none or when it is a head
    parameter whose shape differs from the checkpoint's. *)
Theorem load_weight_partial_match (model model' : Model scalar) (weight : string)
    (checkpoint : gmap string (gmap string (Tensor scalar)))
    (checkpoint_model : gmap string (Tensor scalar)) :
  (if startswith weight "https" then load_state_dict_from_url weight
   else torch_load weight) = inr checkpoint →
  checkpoint !! "model" = Some checkpoint_model →
  load_weight model weight = inr model' →
  ∀ k s, state_dict model !! k = Some s → k ≠ "pos_embed" →
    state_dict model' !! k
    = Some (match checkpoint_model !! k with
            | Some t => if bool_decide (k ∈ head_keys) && bool_decide (shape t ≠ shape s)
                        then s else t
            | None => s
            end).
Proof.
  intros Hfetch Hmodel Hload k s Hs Hk.
  apply load_weight_inr in Hload as (c & cm & prepared & Hfetch' & Hmodel' & Hprep & Hload).
  assert (c = checkpoint) as -> by congruence.
  assert (cm = checkpoint_model) as -> by congruence.
  unfold prepare_checkpoint in Hprep.
  apply bind_inr in Hprep as (kept & Hkept & Hprep).
  apply bind_inr in Hprep as (new_pos_embed & _ & Hprep).
  inversion Hprep; subst prepared. clear Hprep.
  apply load_state_dict_inr in Hload as [_ ->].
  rewrite state_dict_map_model. rewrite state_dict_lookup in Hs.
  destruct (list_to_map (named_parameters model) !! k) as [p|] eqn:Hp; [|discriminate].
  simpl in Hs. inversion Hs; subst s. simpl. f_equal.
  rewrite lookup_insert_ne by done.
  rewrite (drop_mismatched_heads_lookup _ _ _ _ Hkept k).
  rewrite state_dict_lookup, Hp. simpl.
  destruct (checkpoint_model !! k) as [t|]; [|by rewrite andb_false_r].
  by destruct (_ && _).
Qed.



(** X15.  A checkpoint whose positional embedding has fewer tokens than
    the model has extra tokens is refused with [TypeError]: the grid size
    would be the square root of a negative number. *)
Theorem interpolate_pos_embed_too_few_tokens (model : Model scalar)
    (checkpoint_model : gmap string (Tensor scalar))
    (pos_embed_checkpoint : Tensor scalar) (e model_tokens checkpoint_tokens : nat) :
  checkpoint_model !! "pos_embed" = Some pos_embed_checkpoint →
  shape_last pos_embed_checkpoint = inr e →
  shape_last2 pos_embed_checkpoint = inr checkpoint_tokens →
  shape_last2 (value (pos_embed model)) = inr model_tokens →
  (Z.of_nat checkpoint_tokens < Z.of_nat model_tokens - patch_embed_num_patches model)%Z →
  ∃ msg, interpolate_pos_embed model checkpoint_model = inl (TypeError msg).
Proof.
  intros Hpe He Hct Hmt Hlt.
  unfold interpolate_pos_embed, getitem. rewrite Hpe, bind_ret, He, bind_ret.
  rewrite Hmt, bind_ret, Hct, bind_ret.
  unfold int_sqrt at 1. rewrite decide_True by lia. by eexists.
Qed.


(** ** Orchestrator *)

(** The training run, step by step: when every step before the training
    loop returns, these are the recorded calls and the outcome is the
    training loop's. *)
Lemma main_train_run (args : Args) (classes classes' : Z) (repl_blocks : list Z)
    (max_index : Z) (model_deit model_repl model model_ori cut cut_ori : Model scalar) :
  train args = true → eval args = false →
  build_dataset true args = inr classes →
  build_dataset false (set_nb_classes args classes) = inr classes' →
  create_model (d_model args) classes (input_size args) = inr model_deit →
  replace args = Some repl_blocks →
  replace_att2mixer model_deit repl_blocks (d_model args) = inr model_repl →
  load_weight model_repl (d_weight args) = inr model →
  load_weight model_deit (d_weight args) = inr model_ori →
  py_max repl_blocks = inr max_index →
  cut_extra_layers model max_index default_depth = inr cut →
  cut_extra_layers model_ori max_index default_depth = inr cut_ori →
  let student := set_requires_grad cut repl_blocks default_freeze in
  let teacher := set_requires_grad cut_ori [] default_freeze in
  main args
  = ([BuildDataset true; BuildDataset false; CreateModel (d_model args); DeepCopy;
      ReplaceBlocks (replace args); LoadWeight (d_weight args); LoadWeight (d_weight args);
      ToDevice cut; ToDevice cut_ori; ToDevice student; ToDevice teacher;
      MakeOutputDir; TrainModel student teacher (trainable_count student)],
     train_model (set_nb_classes args classes) student teacher (trainable_count student)).
Proof.
  intros Htrain Heval Hc Hc' Hm Hrepl Hmr Hload Hload_ori Hmax Hcut Hcut_ori student teacher.
  unfold main. rewrite !io_bind_call. simpl.
  rewrite Hc, Hc', Hm. rewrite !io_bind_call. rewrite Hrepl. simpl. rewrite Hmr.
  rewrite Heval, Htrain. simpl.
  rewrite !io_bind_call. rewrite Hload. rewrite !io_bind_call. rewrite Hload_ori.
  rewrite !io_bind_pure_step. simpl. rewrite Hmax. simpl. rewrite Hcut, Hcut_ori.
  reflexivity.
Qed.

(** A recorded call of the training loop means that every step before it
    has returned. *)
Lemma main_train_inversion (args : Args) (student teacher : Model scalar) (n : Z) :
  TrainModel student teacher n ∈ (main args).1 →
  ∃ classes classes' repl_blocks max_index model_deit model_repl model model_ori cut cut_ori,
    train args = true ∧ eval args = false
    ∧ build_dataset true args = inr classes
    ∧ build_dataset false (set_nb_classes args classes) = inr classes'
    ∧ create_model (d_model args) classes (input_size args) = inr model_deit
    ∧ replace args = Some repl_blocks
    ∧ replace_att2mixer model_deit repl_blocks (d_model args) = inr model_repl
    ∧ load_weight model_repl (d_weight args) = inr model
    ∧ load_weight model_deit (d_weight args) = inr model_ori
    ∧ py_max repl_blocks = inr max_index
    ∧ cut_extra_layers model max_index default_depth = inr cut
    ∧ cut_extra_layers model_ori max_index default_depth = inr cut_ori
    ∧ student = set_requires_grad cut repl_blocks default_freeze
    ∧ teacher = set_requires_grad cut_ori [] default_freeze
    ∧ n = trainable_count student.
Proof.
  unfold main. intros Hin.
  apply elem_of_io_bind_call in Hin as [Hin|(classes & Hc & Hin)]; [discriminate|].
  apply elem_of_io_bind_call in Hin as [Hin|(classes' & Hc' & Hin)]; [discriminate|].
  apply elem_of_io_bind_call in Hin as [Hin|(model_deit & Hm & Hin)]; [discriminate|].
  apply elem_of_io_bind_call in Hin as [Hin|(model_ori0 & Hcopy & Hin)]; [discriminate|].
  inversion Hcopy; subst model_ori0.
  apply elem_of_io_bind_call in Hin as [Hin|(model_repl & Hrepl & Hin)]; [discriminate|].
  simpl in Hm, Hrepl, Hin.
  apply bind_inr in Hrepl as (repl_blocks & Hiter & Hrepl).
  destruct (replace args) as [l|] eqn:Hargs; simpl in Hiter; [|discriminate].
  inversion Hiter; subst l. simpl in Hin.
  destruct (eval args) eqn:Heval; destruct (train args) eqn:Htrain; simpl in Hin;
    [ by apply elem_of_nil in Hin
    | apply elem_of_io_bind_call in Hin as [Hin|(? & _ & Hin)]; [discriminate|];
      simpl in Hin; apply list_elem_of_singleton in Hin; discriminate
    |
    | by apply elem_of_nil in Hin ].
  apply elem_of_io_bind_call in Hin as [Hin|(model & Hload & Hin)]; [discriminate|].
  apply elem_of_io_bind_call in Hin as [Hin|(model_ori & Hload_ori & Hin)]; [discriminate|].
  apply elem_of_io_bind_pure_step in Hin as (cut & Hcut & Hin).
  apply elem_of_io_bind_pure_step in Hin as (cut_ori & Hcut_ori & Hin).
  simpl in Hcut, Hcut_ori.
  apply bind_inr in Hcut as (max_index & Hmax & Hcut).
  apply bind_inr in Hcut_ori as (max_index' & Hmax' & Hcut_ori).
  assert (max_index' = max_index) as -> by congruence.
  apply elem_of_io_bind_call in Hin as [Hin|(? & _ & Hin)]; [discriminate|].
  apply elem_of_io_bind_call in Hin as [Hin|(? & _ & Hin)]; [discriminate|].
  apply elem_of_io_bind_pure_step in Hin as (repl' & Hrepl' & Hin).
  simpl in Hrepl'. inversion Hrepl'; subst repl'.
  apply elem_of_io_bind_call in Hin as [Hin|(? & _ & Hin)]; [discriminate|].
  apply elem_of_io_bind_call in Hin as [Hin|(? & _ & Hin)]; [discriminate|].
  apply elem_of_io_bind_call in Hin as [Hin|(? & _ & Hin)]; [discriminate|].
  simpl in Hin. apply list_elem_of_singleton in Hin.
  inversion Hin; subst student teacher n.
  exists classes, classes', repl_blocks, max_index, model_deit, model_repl, model,
         model_ori, cut, cut_ori.
  repeat (split; [done|]). done.
Qed.






Lemma cut_extra_layers_lookup (model model' : Model scalar) (max_index depth : Z) :
  cut_extra_layers model max_index depth = inr model' →
  length (blocks model') = length (blocks model)
  ∧ Forall (λ i, - Z.of_nat (length (blocks model)) ≤ i
                 < Z.of_nat (length (blocks model)))%Z (py_range (max_index + 1) depth)
  ∧ ∀ p : nat,
      blocks model' !! p
      = if decide (Exists (λ i, Z.to_nat (i `mod` Z.of_nat (length (blocks model))) = p)
                          (py_range (max_index + 1) depth))
        then Some EmptyBlock else blocks model !! p.
Proof.
  intros (bs & Hbs & ->)%cut_extra_layers_inr. simpl.
  pose proof (seq_setitems_inr_valid _ _ _ _ Hbs) as Hvalid.
  destruct (seq_setitems_ok _ EmptyBlock _ Hvalid) as (bs' & Hrun & Hlen & Hlook).
  rewrite Hbs in Hrun. inversion Hrun; subst bs'. done.
Qed.






Lemma load_weight_blocks (model model' : Model scalar) (weight : string) :
  load_weight model weight = inr model' →
  ∃ f, ∀ p : nat, blocks model' !! p = map_block f (block_prefix p) <$> blocks model !! p.
Proof.
  intros (checkpoint & checkpoint_model & prepared & _ & _ & _ & Hload)%load_weight_inr.
  apply load_state_dict_inr in Hload as [_ ->].
  eexists. intros p. apply blocks_map_model.
Qed.


(** X20.  The teacher is built from the copy made before the replacer
    runs: it has as many blocks as the model the factory returned, and it
    holds a replacement block only where the factory's model already had
    one. *)
Theorem main_teacher_has_no_replacement (args : Args) (student teacher : Model scalar)
    (n : Z) :
  TrainModel student teacher n ∈ (main args).1 →
  ∃ classes model_deit,
    build_dataset true args = inr classes
    ∧ create_model (d_model args) classes (input_size args) = inr model_deit
    ∧ length (blocks teacher) = length (blocks model_deit)
    ∧ ∀ (p : nat) np thd cd chd ps,
        blocks teacher !! p = Some (MixerBlock np thd cd chd ps) →
        ∃ ps', blocks model_deit !! p = Some (MixerBlock np thd cd chd ps').
Proof.
  intros (classes & classes' & repl_blocks & max_index & model_deit & model_repl & model
          & model_ori & cut & cut_ori & _ & _ & Hc & _ & Hm & _ & _ & _ & Hload_ori
          & _ & _ & Hcut_ori & _ & -> & _)%main_train_inversion.
  exists classes, model_deit. split; [done|]. split; [done|].
  destruct (cut_extra_layers_lookup _ _ _ _ Hcut_ori) as (Hlen_cut & _ & Hlook_cut).
  destruct (load_weight_blocks _ _ _ Hload_ori) as [f Hf].
  split.
  - unfold set_requires_grad, map_model. simpl. rewrite length_imap, Hlen_cut.
    apply load_weight_inr in Hload_ori as (? & ? & ? & _ & _ & _ & Hl).
    apply load_state_dict_inr in Hl as [_ ->]. unfold map_model. simpl. apply length_imap.
  - intros p np thd cd chd ps. unfold set_requires_grad.
    rewrite blocks_map_model, Hlook_cut.
    destruct (decide (Exists _ _)); [discriminate|].
    rewrite Hf. destruct (blocks model_deit !! p) as [[| |]|]; simpl; try discriminate.
    intros [= -> -> -> -> _]. by eexists.
Qed.


(** Decide a membership in an explicit trace, one event at a time. *)
Ltac trace_cases :=
  let Hin := fresh "Hin" in
  simpl; intros Hin;
  repeat (apply elem_of_cons in Hin as [->|Hin]; [done|]);
  by apply elem_of_nil in Hin.

(** The names in the recorded calls are the command line's: the factory
    is called on [args.d_model], the replacer on [args.replace], and with
    [--train] set every checkpoint is read from [args.d_weight]. *)
Lemma main_events_with_train (args : Args) (ev : Event scalar) :
  train args = true →
  ev ∈ (main args).1 →
  match ev with
  | CreateModel name => name = d_model args
  | ReplaceBlocks repl_blocks => repl_blocks = replace args
  | LoadWeight weight => weight = d_weight args ∧ eval args = false
  | _ => True
  end.
Proof.
  intros Htrain. unfold main. rewrite !io_bind_call. simpl.
  destruct (build_dataset true args) as [e|c]; [trace_cases|].
  destruct (build_dataset false _) as [e|c']; [trace_cases|].
  destruct (create_model _ _ _) as [e|m]; [trace_cases|].
  rewrite !io_bind_call.
  destruct (bind (iterate_replace _) _) as [e|mr]; [trace_cases|].
  rewrite Htrain. destruct (eval args); simpl; [trace_cases|].
  rewrite io_bind_call.
  destruct (load_weight mr (d_weight args)) as [e|model]; [trace_cases|].
  cbn beta iota. rewrite io_bind_call.
  destruct (load_weight m (d_weight args)) as [e|model_ori]; [trace_cases|].
  cbn beta iota. rewrite !io_bind_pure_step.
  destruct (bind (iterate_replace _) _) as [e|cut]; [trace_cases|].
  rewrite !io_bind_pure_step.
  destruct (bind (iterate_replace _) _) as [e|cut_ori]; [trace_cases|].
  rewrite !io_bind_call. cbn beta iota. rewrite !io_bind_pure_step.
  destruct (iterate_replace (replace args)) as [e|repl]; [trace_cases|].
  rewrite !io_bind_call. trace_cases.
Qed.

(** With both [--eval] and [--train] set no branch of the mode test is
    taken, so the run cannot return. *)
Lemma main_both_flags_raise (args : Args) :
  eval args = true → train args = true → raises (main args).2.
Proof.
  intros Heval Htrain. unfold main. rewrite !io_bind_call. simpl.
  destruct (build_dataset true args) as [e|c]; [by eexists|].
  destruct (build_dataset false _) as [e|c']; [by eexists|].
  destruct (create_model _ _ _) as [e|m]; [by eexists|].
  rewrite !io_bind_call.
  destruct (bind (iterate_replace _) _) as [e|mr]; [by eexists|].
  rewrite Heval, Htrain. simpl. by eexists.
Qed.

(** X21.  Run as a script, the program ignores the model, the weights,
    the replacement list and the training flag of the command line: the
    factory is only ever called on ["deit_tiny_patch16_224"], the replacer
    on the list [[1]], every checkpoint is read from the fixed DeiT
    address, and a command line with [--eval] cannot evaluate: it ends in
    an exception without reading any checkpoint. *)
Theorem script_overrides_command_line (args : Args) :
  (∀ name, CreateModel name ∈ (script args).1 → name = deit_model)
  ∧ (∀ repl_blocks, ReplaceBlocks repl_blocks ∈ (script args).1 →
                    repl_blocks = Some [1%Z])
  ∧ (∀ weight, LoadWeight weight ∈ (script args).1 →
               weight = deit_weight ∧ eval args = false)
  ∧ (eval args = true → raises (script args).2).
Proof.
  unfold script.
  split; [|split; [|split]].
  - intros name Hin. exact (main_events_with_train (script_args args) _ eq_refl Hin).
  - intros repl_blocks Hin.
    exact (main_events_with_train (script_args args) _ eq_refl Hin).
  - intros weight Hin.
    exact (main_events_with_train (script_args args) _ eq_refl Hin).
  - intros Heval. by apply (main_both_flags_raise (script_args args)).
Qed.


End MoreProperties.

(** ** The further properties on the instances *)

Ltac trace_member :=
  vm_compute; repeat (first [apply list_elem_of_here | apply list_elem_of_further]).


Lemma set_requires_grad_law_witness :
  ("blocks.1.attn.qkv.weight", mkParam (filled [6; 2] 1000) false)
    ∈ named_parameters (set_requires_grad (demo_model 3) [1%Z] true)
  ∧ requires_grad (mkParam (filled [6; 2] 1000) false) = negb true.
Proof.
  assert (("blocks.1.attn.qkv.weight", mkParam (filled [6; 2] 1000) false)
            ∈ named_parameters (set_requires_grad (demo_model 3) [1%Z] true)) as Hin.
  { trace_member. }
  split; [exact Hin|].
  destruct (set_requires_grad_law (demo_model 3) [1%Z] true _ _ Hin) as (Hmatch & _ & _).
  apply Hmatch. exists 1%Z. split; [apply list_elem_of_here | by vm_compute].
Defined.

Lemma set_requires_grad_prefix_collision_witness :
  String.prefix (pretty 1%Z) (pretty (Z.of_nat 10)) = true
  ∧ ("blocks.10.attn.qkv.weight", mkParam (filled [6; 2] 10000) false)
      ∈ named_parameters (set_requires_grad (demo_model 14) [1%Z] true)
  ∧ requires_grad (mkParam (filled [6; 2] 10000) false) = negb true.
Proof.
  assert ((block_prefix 10 +:+ "attn.qkv.weight", mkParam (filled [6; 2] 10000) false)
            ∈ named_parameters (set_requires_grad (demo_model 14) [1%Z] true)) as Hin.
  { trace_member. }
  split; [by vm_compute|].
  split; [exact Hin|].
  apply (set_requires_grad_prefix_collision (demo_model 14) [1%Z] true 1 10
           "attn.qkv.weight" _ (list_elem_of_here _ _)); [by vm_compute | exact Hin].
Defined.



Lemma replace_att2mixer_returns_iff_witness :
  @param_dict Z demo !! "vit_small_demo" = Some demo_entry
  ∧ (∃ model', replace_att2mixer (collab := demo) (demo_model 3) [1; -1]%Z "vit_small_demo"
               = inr model')
  ∧ ¬ (∃ model', replace_att2mixer (collab := demo) (demo_model 3) [1; 3]%Z "vit_small_demo"
                 = inr model').
Proof.
  split; [by vm_compute|].
  split.
  - apply (replace_att2mixer_returns_iff (collab := demo) (demo_model 3) [1; -1]%Z
             "vit_small_demo" demo_entry 4 3 2 5 (demo_mixer_params 4 3 2 5));
      try by vm_compute.
    repeat (apply Forall_cons; split; [simpl; lia|]). apply Forall_nil_2.
  - intros Hret.
    apply (replace_att2mixer_returns_iff (collab := demo) (demo_model 3) [1; 3]%Z
             "vit_small_demo" demo_entry 4 3 2 5 (demo_mixer_params 4 3 2 5)) in Hret;
      try by vm_compute.
    apply Forall_cons in Hret as [_ Hret]. apply Forall_cons in Hret as [Hret _].
    simpl in Hret. lia.
Defined.

Lemma replace_att2mixer_order_irrelevant_witness :
  Forall (λ i, - Z.of_nat (length (blocks (demo_model 3))) ≤ i
               < Z.of_nat (length (blocks (demo_model 3))))%Z [1; 0; 1]%Z
  ∧ replace_att2mixer (collab := demo) (demo_model 3) [1; 0; 1]%Z "vit_small_demo"
    = replace_att2mixer (collab := demo) (demo_model 3) [0; 1]%Z "vit_small_demo".
Proof.
  assert (Forall (λ i, - Z.of_nat (length (blocks (demo_model 3))) ≤ i
                       < Z.of_nat (length (blocks (demo_model 3))))%Z [1; 0; 1]%Z) as Hvalid.
  { repeat (apply Forall_cons; split; [simpl; lia|]). apply Forall_nil_2. }
  split; [exact Hvalid|].
  apply (replace_att2mixer_order_irrelevant (collab := demo) (demo_model 3) [1; 0; 1]%Z
           [0; 1]%Z "vit_small_demo" demo_entry 4 3 2 5 (demo_mixer_params 4 3 2 5));
    try by vm_compute.
  intros i. rewrite !elem_of_cons, !elem_of_nil. tauto.
Defined.

Lemma replace_att2mixer_missing_hyperparameter_witness :
  @param_dict Z demo_incomplete !! "vit_small_demo" = Some demo_incomplete_entry
  ∧ demo_incomplete_entry !! "channels_dim" = None
  ∧ replace_att2mixer (collab := demo_incomplete) (demo_model 3) [1]%Z "vit_small_demo"
    = inl (KeyError "channels_dim").
Proof.
  split; [by vm_compute|]. split; [by vm_compute|].
  apply (replace_att2mixer_missing_hyperparameter (collab := demo_incomplete) (demo_model 3)
           1 [] "vit_small_demo" demo_incomplete_entry
           ["num_patches"; "token_hid_dim"] "channels_dim" ["channels_hid_dim"]).
  - by vm_compute.
  - reflexivity.
  - repeat (apply Forall_cons; split; [by vm_compute; eexists|]). apply Forall_nil_2.
  - by vm_compute.
Defined.

Lemma drop_mismatched_heads_spec_witness :
  ∃ kept,
    drop_mismatched_heads (state_dict (demo_model 3)) demo_state head_keys = inr kept
    ∧ kept !! "head.weight" = None
    ∧ kept !! "cls_token" = demo_state !! "cls_token".
Proof.
  destruct (drop_mismatched_heads_spec (state_dict (demo_model 3)) demo_state)
    as (kept & Hrun & Hother & _ & Hdiff).
  - intros k Hk Hc.
    repeat (apply elem_of_cons in Hk as [->|Hk]);
      [vm_compute; by eexists | vm_compute; by eexists
       | vm_compute in Hc; by destruct Hc | vm_compute in Hc; by destruct Hc
       | by apply elem_of_nil in Hk].
  - exists kept. split; [exact Hrun|]. split.
    + apply (Hdiff "head.weight" (filled [7; 2] 700) (filled [3; 2] 40));
        [apply list_elem_of_here | by vm_compute | by vm_compute | discriminate].
    + apply Hother. intros Hk.
      repeat (apply elem_of_cons in Hk as [Hk|Hk]; [discriminate|]).
      by apply elem_of_nil in Hk.
Defined.

Lemma load_weight_missing_pos_embed_witness :
  demo_state_headless !! "pos_embed" = None
  ∧ load_weight (collab := demo_incomplete) (demo_model 3) "demo.pth"
    = inl (KeyError "pos_embed").
Proof.
  split; [by vm_compute|].
  apply (load_weight_missing_pos_embed (collab := demo_incomplete) (demo_model 3) "demo.pth"
           {[ "model" := demo_state_headless ]} demo_state_headless).
  - by vm_compute.
  - by vm_compute.
  - intros k Hk Hc.
    repeat (apply elem_of_cons in Hk as [->|Hk]);
      try (vm_compute in Hc; by destruct Hc).
    by apply elem_of_nil in Hk.
  - by vm_compute.
Defined.

Lemma load_weight_keeps_structure_witness :
  ∃ model',
    load_weight (collab := demo) (demo_model 3) "demo.pth" = inr model'
    ∧ length (blocks model') = 3%nat
    ∧ patch_embed_num_patches model' = 4%Z.
Proof.
  destruct (load_weight (collab := demo) (demo_model 3) "demo.pth") as [e|model'] eqn:Hrun;
    [by vm_compute in Hrun|].
  exists model'. split; [reflexivity|].
  destruct (load_weight_keeps_structure (collab := demo) (demo_model 3) model' "demo.pth" Hrun)
    as (_ & Hlen & Hpatches & _).
  split; [exact Hlen | exact Hpatches].
Defined.

Lemma load_weight_partial_match_witness :
  ∃ model',
    load_weight (collab := demo) (demo_model 3) "demo.pth" = inr model'
    ∧ state_dict model' !! "cls_token" = Some (filled [1; 1; 2] 600)
    ∧ state_dict model' !! "head.weight" = Some (filled [3; 2] 40)
    ∧ state_dict model' !! "norm.bias" = Some (filled [2] 30).
Proof.
  destruct (load_weight (collab := demo) (demo_model 3) "demo.pth") as [e|model'] eqn:Hrun;
    [by vm_compute in Hrun|].
  exists model'. split; [reflexivity|].
  pose proof (load_weight_partial_match (collab := demo) (demo_model 3) model' "demo.pth"
                demo_checkpoint demo_state eq_refl eq_refl Hrun) as Hload.
  split; [|split].
  - rewrite (Hload "cls_token" (filled [1; 1; 2] 0)); [by vm_compute | by vm_compute | done].
  - rewrite (Hload "head.weight" (filled [3; 2] 40)); [by vm_compute | by vm_compute | done].
  - rewrite (Hload "norm.bias" (filled [2] 30)); [by vm_compute | by vm_compute | done].
Defined.


Lemma interpolate_pos_embed_too_few_tokens_witness :
  shape_last2 (filled [1; 0; 2] 500) = inr 0%nat
  ∧ ∃ msg, interpolate_pos_embed (collab := demo) (demo_model 3) demo_state_no_tokens
           = inl (TypeError msg).
Proof.
  split; [reflexivity|].
  apply (interpolate_pos_embed_too_few_tokens (collab := demo) (demo_model 3)
           demo_state_no_tokens (filled [1; 0; 2] 500) 2 5 0).
  - by vm_compute.
  - reflexivity.
  - reflexivity.
  - reflexivity.
  - simpl. lia.
Defined.





Lemma main_teacher_has_no_replacement_witness :
  TrainModel demo_student demo_teacher demo_n_parameters
    ∈ (main (collab := demo) demo_train_args).1
  ∧ ∃ classes model_deit,
      build_dataset (Collaborators := demo) true demo_train_args = inr classes
      ∧ create_model (Collaborators := demo) (d_model demo_train_args) classes
          (input_size demo_train_args) = inr model_deit
      ∧ length (blocks demo_teacher) = length (blocks model_deit)
      ∧ ∀ (p : nat) np thd cd chd ps,
          blocks demo_teacher !! p = Some (MixerBlock np thd cd chd ps) →
          ∃ ps', blocks model_deit !! p = Some (MixerBlock np thd cd chd ps').
Proof.
  assert (TrainModel demo_student demo_teacher demo_n_parameters
            ∈ (main (collab := demo) demo_train_args).1) as Hin.
  { trace_member. }
  split; [exact Hin|].
  exact (main_teacher_has_no_replacement (collab := demo) demo_train_args demo_student
           demo_teacher demo_n_parameters Hin).
Defined.

Lemma script_overrides_command_line_witness :
  LoadWeight deit_weight ∈ (script (collab := demo_deit) parsed_defaults).1
  ∧ CreateModel deit_model ∈ (script (collab := demo_deit) parsed_defaults).1
  ∧ eval parsed_defaults = false
  ∧ raises (script (collab := demo_deit) demo_eval_args).2.
Proof.
  assert (LoadWeight deit_weight ∈ (script (collab := demo_deit) parsed_defaults).1) as Hin.
  { trace_member. }
  split; [exact Hin|]. split; [trace_member|].
  destruct (script_overrides_command_line (collab := demo_deit) parsed_defaults)
    as (_ & _ & Hweight & _).
  split; [exact (proj2 (Hweight _ Hin))|].
  destruct (script_overrides_command_line (collab := demo_deit) demo_eval_args)
    as (_ & _ & _ & Hraises).
  apply Hraises. reflexivity.
Defined.

